(** * masche: the Linux region enumerator and memory reader

    A shallow embedding of [memaccess]'s Linux back end
    ([nextMemoryRegion], [nextReadableMemoryRegion], [copyMemory]) and the
    properties of the region enumeration that the design document states.

    Go values are modelled as follows.
    - [uintptr] and [uint] are 64-bit: integers in [Z] with the wrap-around
      written out ([wrap]).
    - a [string] is a [String.string]; [s[i]] is [String.get i s] and an
      index out of range is a run-time panic ([Panics]).
    - an [error] is the text it prints; [nil] is [None].
    - the files under [/proc] are a function from paths to what [os.Open]
      gives: an error, or a file with the lines a [bufio.Scanner] delivers,
      the error the scanner stops with, and the positioned read. *)

From Stdlib Require Import ZArith List String Ascii Bool Lia Sorted.
From Stdlib Require Import DecimalString HexadecimalString.
From Stdlib Require Strings.Byte.
Import ListNotations.

Local Open Scope list_scope.
Local Open Scope string_scope.
Local Open Scope Z_scope.

(** ** Machine integers *)

Definition wordsize : Z := 64.
Definition modulus : Z := 2 ^ wordsize.

(** Conversion to [uintptr] / [uint], and the result of unsigned
    arithmetic. *)
Definition wrap (z : Z) : Z := z mod modulus.

(** [int64(address)] for an [address] of type [uintptr]. *)
Definition int64 (z : Z) : Z :=
  let u := wrap z in
  if u <? 2 ^ (wordsize - 1) then u else u - modulus.

(** ** Errors and formatting *)

Definition error := string.

(** [fmt.Errorf] with the verbs the source uses. *)
Definition fmt_d (n : Z) : string :=
  DecimalString.NilZero.string_of_int (Z.to_int n).
Definition fmt_x (n : Z) : string :=
  HexadecimalString.NilZero.string_of_uint (N.to_hex_uint (Z.to_N n)).

(** ** Data model *)

(** Modelled from the spec: the declarations of [Access], its constants and
    [MemoryRegion] are not among the sources.  The permission bitmask has
    independent Read, Write and Execute bits; a region has a base address,
    a size, a permission bitmask and a kind tag. *)
Definition NoAccess : Z := 0.
Definition Readable : Z := 1.
Definition Writable : Z := 2.
Definition Executable : Z := 4.

Record MemoryRegion : Type := mkRegion {
  Address : Z;
  Size : Z;
  Access : Z;
  Kind : string
}.

(** [MemoryRegion{}] *)
Definition zeroRegion : MemoryRegion := mkRegion 0 0 NoAccess EmptyString.

(** Modelled from the spec: the reserved value for "no region available"
    (size 0, address 0); its declaration is not among the sources. *)
Definition NoRegionAvailable : MemoryRegion := zeroRegion.

(** ** The environment *)

Record Process : Type := mkProcess { Pid : Z }.

Record File : Type := mkFile {
  (** the lines [scanner.Scan] delivers before it returns false *)
  file_lines : list string;
  (** [scanner.Err()] after the loop *)
  file_scan_err : option error;
  (** the positioned read of the operating system: how many bytes are
      asked for, at which offset; the bytes obtained and the error *)
  file_pread : nat -> Z -> list Byte.byte * option error
}.

(** [os.Open] *)
Definition FileSystem : Type := string -> File + error.

(** [ReadAt] of [os.File]: never more bytes than the buffer holds; the bytes
    read overwrite the front of the buffer. *)
Definition ReadAt (f : File) (buffer : list Byte.byte) (off : Z)
  : Z * option error * list Byte.byte :=
  let '(data, err) := file_pread f (List.length buffer) off in
  let got := firstn (List.length buffer) data in
  (Z.of_nat (List.length got), err, (got ++ skipn (List.length got) buffer)%list).

(** Package [common] is not among the sources: its four helpers are the
    operations of a class, so that everything below holds for any
    implementation of them.  [ParseMapsFileMemoryLimits] returns two
    [uintptr], hence the range law. *)
Class Common : Type := {
  MapsFilePathFromPid : Z -> string;
  MemFilePathFromPid : Z -> string;
  SplitMapsFileEntry : string -> list string;
  ParseMapsFileMemoryLimits : string -> (Z * Z) + error;
  ParseMapsFileMemoryLimits_range :
    forall limits lo hi,
      ParseMapsFileMemoryLimits limits = inl (lo, hi) ->
      0 <= lo < modulus /\ 0 <= hi < modulus
}.

(** ** Outcomes and loops *)

Inductive outcome : Type :=
| Returns (region : MemoryRegion) (harderror : option error)
          (softerrors : list error)
| Panics.

(** What one iteration of a [for scanner.Scan()] loop does: [continue]
    with the loop variables updated, or [return]. *)
Inductive flow (S : Type) : Type :=
| Next (s : S)
| Exit (o : outcome).
Arguments Next {S} s.
Arguments Exit {S} o.

Fixpoint scan {S : Type} (body : S -> string -> flow S) (s : S)
  (lines : list string) : flow S :=
  match lines with
  | [] => Next s
  | line :: rest =>
      match body s line with
      | Next s' => scan body s' rest
      | Exit o => Exit o
      end
  end.

Definition item (items : list string) (i : nat) : string := nth i items EmptyString.

Definition dash : ascii := "-"%char.

(** [access := None; if items[1][k] != '-' {access += ...}] *)
Definition accessOf (perms : string) : option Z :=
  match String.get 0 perms, String.get 1 perms, String.get 2 perms with
  | Some r, Some w, Some x =>
      Some (NoAccess
            + (if Ascii.eqb r dash then 0 else Readable)
            + (if Ascii.eqb w dash then 0 else Writable)
            + (if Ascii.eqb x dash then 0 else Executable))
  | _, _, _ => None
  end.

Section Memaccess.

Context {C : Common}.

(** *** nextMemoryRegion *)

(** The loop variables are [region] and [softerrors]; the body changes
    neither. *)
Definition nextMemoryRegion_body (address : Z)
  (st : MemoryRegion * list error) (line : string)
  : flow (MemoryRegion * list error) :=
  let '(region, softerrors) := st in
  let items := SplitMapsFileEntry line in
  if negb (Nat.eqb (List.length items) 6) then
    Exit (Returns region (Some ("Unrecognised maps line: " ++ line)) softerrors)
  else
    match ParseMapsFileMemoryLimits (item items 0) with
    | inr err => Exit (Returns region (Some err) softerrors)
    | inl (start, end_) =>
        if String.eqb (item items 5) "[vsyscall]" then Next st
        else if end_ <=? address then Next st
        else
          match accessOf (item items 1) with
          | None => Exit Panics
          | Some access =>
              Exit (Returns (mkRegion start (wrap (end_ - start)) access
                               (item items 5))
                      None softerrors)
          end
    end.

Definition nextMemoryRegion (fs : FileSystem) (p : Process) (address : Z)
  : outcome :=
  match fs (MapsFilePathFromPid (Pid p)) with
  | inr harderror => Returns zeroRegion (Some harderror) []
  | inl mapsFile =>
      match scan (nextMemoryRegion_body address) (zeroRegion, [])
                 (file_lines mapsFile) with
      | Exit o => o
      | Next (_, softerrors) => Returns NoRegionAvailable None softerrors
      end
  end.

(** *** nextReadableMemoryRegion *)

Definition nextReadableMemoryRegion_body (address : Z)
  (st : MemoryRegion * list error) (line : string)
  : flow (MemoryRegion * list error) :=
  let '(region, softerrors) := st in
  let items := SplitMapsFileEntry line in
  if negb (Nat.eqb (List.length items) 6) then
    Exit (Returns region (Some ("Unrecognised maps line: " ++ line)) softerrors)
  else
    match ParseMapsFileMemoryLimits (item items 0) with
    | inr err => Exit (Returns region (Some err) softerrors)
    | inl (start, end_) =>
        if end_ <=? address then Next st
        else if String.eqb (item items 5) "[vsyscall]" then Next st
        else
          match String.get 0 (item items 1) with
          | None => Exit Panics
          | Some c =>
              if Ascii.eqb c dash then
                if negb (Address region =? 0) then
                  Exit (Returns region None softerrors)
                else
                  Next (region,
                        List.app softerrors
                          ["Unreadable memory " ++ item items 0])
              else
                let size := wrap (end_ - start) in
                if Address region =? 0 then
                  Next (mkRegion start size NoAccess EmptyString, softerrors)
                else if wrap (Address region + Size region) =? start then
                  Next (mkRegion (Address region) (wrap (Size region + size))
                          (Access region) (Kind region),
                        softerrors)
                else
                  Exit (Returns region None softerrors)
          end
    end.

Definition nextReadableMemoryRegion (fs : FileSystem) (p : Process)
  (address : Z) : outcome :=
  match fs (MapsFilePathFromPid (Pid p)) with
  | inr harderror => Returns zeroRegion (Some harderror) []
  | inl mapsFile =>
      match scan (nextReadableMemoryRegion_body address) (zeroRegion, [])
                 (file_lines mapsFile) with
      | Exit o => o
      | Next (region, softerrors) =>
          match file_scan_err mapsFile with
          | Some err => Returns NoRegionAvailable (Some err) softerrors
          | None =>
              if 0 <? Address region then Returns region None softerrors
              else Returns NoRegionAvailable None softerrors
          end
      end
  end.

(** *** copyMemory *)

(** The result is the pair the function returns and the caller's buffer
    after the call. *)
Definition copyMemory (fs : FileSystem) (p : Process) (address : Z)
  (buffer : list Byte.byte)
  : option error * list error * list Byte.byte :=
  let reading :=
    "Error while reading " ++ fmt_d (Z.of_nat (List.length buffer))
      ++ " bytes starting at " ++ fmt_x address ++ ": " in
  match fs (MemFilePathFromPid (Pid p)) with
  | inr harderror => (Some (reading ++ harderror), [], buffer)
  | inl mem =>
      let '(bytes_read, harderror, buffer') :=
        ReadAt mem buffer (int64 address) in
      match harderror with
      | Some e => (Some (reading ++ e), [], buffer')
      | None =>
          if negb (bytes_read =? Z.of_nat (List.length buffer)) then
            (Some "Could not read the entire buffer", [], buffer')
          else (None, [], buffer')
      end
  end.

(** *** Reading a record

    What the two loops read off a line of the listing: the limits when the
    line has six fields and its range parses, the range as written, the
    permission string and the kind tag. *)

Definition limitsOf (line : string) : option (Z * Z) :=
  let items := SplitMapsFileEntry line in
  if Nat.eqb (List.length items) 6 then
    match ParseMapsFileMemoryLimits (item items 0) with
    | inl limits => Some limits
    | inr _ => None
    end
  else None.

Definition rangeOf (line : string) : string :=
  item (SplitMapsFileEntry line) 0.
Definition permsOf (line : string) : string :=
  item (SplitMapsFileEntry line) 1.
Definition kindOf (line : string) : string :=
  item (SplitMapsFileEntry line) 5.

Definition startOf (line : string) : Z :=
  match limitsOf line with Some (start, _) => start | None => 0 end.
Definition endOf (line : string) : Z :=
  match limitsOf line with Some (_, end_) => end_ | None => 0 end.

(** [uint(end - start)] *)
Definition sizeOf (line : string) : Z := wrap (endOf line - startOf line).

Definition isVsyscall (line : string) : bool :=
  String.eqb (kindOf line) "[vsyscall]".

(** The records a call at [address] does not pass over: well formed, not
    the [vsyscall] page, ending above [address]. *)
Definition considered (address : Z) (line : string) : bool :=
  match limitsOf line with
  | Some (_, end_) => negb (end_ <=? address) && negb (isVsyscall line)
  | None => false
  end.

(** [items[1][0] != '-'] and [items[1][0] == '-'], where [items[1]] is not
    empty. *)
Definition readable (line : string) : bool :=
  match String.get 0 (permsOf line) with
  | Some c => negb (Ascii.eqb c dash)
  | None => false
  end.

Definition unreadable (line : string) : bool :=
  match String.get 0 (permsOf line) with
  | Some c => Ascii.eqb c dash
  | None => false
  end.

(** [fmt.Errorf("Unreadable memory %s", items[0])] *)
Definition unreadableError (line : string) : error :=
  "Unreadable memory " ++ rangeOf line.

(** [fmt.Errorf("Unrecognised maps line: %s", line)] *)
Definition unrecognisedError (line : string) : error :=
  "Unrecognised maps line: " ++ line.

(** *** Notions used in the statements *)

(** A region with a base address and a size only. *)
Definition bare (region : MemoryRegion) : Prop :=
  Access region = NoAccess /\ Kind region = EmptyString.

(** A record at which [nextReadableMemoryRegion] begins a region that it
    can tell from "no region yet": considered, readable, not at address
    zero. *)
Definition began (address : Z) (line : string) : Prop :=
  considered address line = true /\ readable line = true /\
  startOf line <> 0.

(** Each of the records [more] begins where the region accumulated so far
    ends; [size] is the size accumulated before the first of them. *)
Fixpoint chained (base size : Z) (more : list string) : Prop :=
  match more with
  | [] => True
  | line :: more' =>
      startOf line = wrap (base + size) /\
      chained base (wrap (size + sizeOf line)) more'
  end.

Definition sizesOf (lines : list string) : Z :=
  fold_right (fun line total => sizeOf line + total) 0 lines.

(** The half-open intervals of two regions have no address in common. *)
Definition apart (r r' : MemoryRegion) : Prop :=
  forall z, ~ (Address r <= z < Address r + Size r /\
               Address r' <= z < Address r' + Size r').

(** A listing sorted by strictly increasing start address, whose records
    are non-empty intervals, pairwise disjoint. *)
Definition orderedListing (lines : list string) : Prop :=
  Forall (fun line => exists start end_,
            limitsOf line = Some (start, end_) /\ start < end_) lines /\
  StronglySorted
    (fun x y => startOf x < startOf y /\
                (endOf x <= startOf y \/ endOf y <= startOf x)) lines.

(** [region] runs from the start of a record of the listing that is
    considered at [address] to the end of a record that is not before
    it. *)
Definition spans (address : Z) (lines : list string)
  (region : MemoryRegion) : Prop :=
  exists x y,
    In x lines /\ In y lines /\ considered address x = true /\
    Address region = startOf x /\
    Address region + Size region = endOf y /\
    startOf x <= startOf y /\ endOf x <= endOf y.
(** One call of either enumerator at [address] returns [region]. *)
Definition enumerates (fs : FileSystem) (p : Process) (address : Z)
  (region : MemoryRegion) : Prop :=
  (exists harderror softerrors,
      nextMemoryRegion fs p address = Returns region harderror softerrors) \/
  (exists harderror softerrors,
      nextReadableMemoryRegion fs p address
      = Returns region harderror softerrors).

(** Successive calls, each at the end address of the region the previous
    call returned, up to the first call that has no region to return. *)
Fixpoint enumeration (fs : FileSystem) (p : Process) (address : Z)
  (regions : list MemoryRegion) : Prop :=
  match regions with
  | [] => True
  | region :: rest =>
      enumerates fs p address region /\
      region <> NoRegionAvailable /\
      enumeration fs p (wrap (Address region + Size region)) rest
  end.

End Memaccess.

(** ** A model of package [common] *)

Module Procfs.

(** Modelled from the spec: [common.SplitMapsFileEntry] is not among the
    sources.  A record of the mapping listing has an address range, a
    permission string, three more columns and a trailing kind tag; the
    first five fields end at a single space, and the kind tag is what
    remains once its leading spaces are dropped. *)
Fixpoint cut (sep : ascii) (s : string) : option (string * string) :=
  match s with
  | EmptyString => None
  | String c rest =>
      if Ascii.eqb c sep then Some (EmptyString, rest)
      else
        match cut sep rest with
        | Some (field, rest') => Some (String c field, rest')
        | None => None
        end
  end.

Fixpoint trimLeft (sep : ascii) (s : string) : string :=
  match s with
  | EmptyString => EmptyString
  | String c rest => if Ascii.eqb c sep then trimLeft sep rest else s
  end.

Fixpoint splitFields (n : nat) (entry : string) : list string :=
  match n with
  | O => [trimLeft " "%char entry]
  | S n' =>
      match cut " "%char entry with
      | Some (field, rest) => field :: splitFields n' rest
      | None => [entry; EmptyString]
      end
  end.

Definition SplitMapsFileEntry (entry : string) : list string :=
  splitFields 5 entry.

(** Modelled from the spec: [common.ParseMapsFileMemoryLimits] is not
    among the sources.  The address range is [start-end] in hexadecimal;
    each bound is an unsigned 64-bit number. *)
Definition hexDigit (c : ascii) : option Z :=
  let n := Z.of_nat (nat_of_ascii c) in
  if (48 <=? n) && (n <=? 57) then Some (n - 48)
  else if (97 <=? n) && (n <=? 102) then Some (n - 87)
  else if (65 <=? n) && (n <=? 70) then Some (n - 55)
  else None.

Fixpoint hexValue (acc : Z) (s : string) : option Z :=
  match s with
  | EmptyString => Some acc
  | String c rest =>
      match hexDigit c with
      | Some d => hexValue (16 * acc + d) rest
      | None => None
      end
  end.

Definition parseHex (s : string) : Z + error :=
  match s with
  | EmptyString => inr "parsing an empty number: invalid syntax"
  | _ =>
      match hexValue 0 s with
      | None => inr ("parsing " ++ s ++ ": invalid syntax")
      | Some v =>
          if (0 <=? v) && (v <? modulus) then inl v
          else inr ("parsing " ++ s ++ ": value out of range")
      end
  end.

Definition ParseMapsFileMemoryLimits (limits : string) : (Z * Z) + error :=
  match cut dash limits with
  | None => inr ("no address range in " ++ limits)
  | Some (lo, rest) =>
      let hi := match cut dash rest with
                | Some (hi, _) => hi
                | None => rest
                end in
      match parseHex lo with
      | inr e => inr e
      | inl start =>
          match parseHex hi with
          | inr e => inr e
          | inl end_ => inl (start, end_)
          end
      end
  end.

(** Modelled from the spec: the per-process files of the operating
    system; [common.MapsFilePathFromPid] and [common.MemFilePathFromPid]
    are not among the sources. *)
Definition MapsFilePathFromPid (pid : Z) : string :=
  "/proc/" ++ fmt_d pid ++ "/maps".

Definition MemFilePathFromPid (pid : Z) : string :=
  "/proc/" ++ fmt_d pid ++ "/mem".

End Procfs.


(** ** Sample listings *)

Module Sample.

(** A file system with one process, whose mapping listing is [lines] and
    whose scanner stops with [err]. *)
Definition fileOf (lines : list string) (err : option error) : File :=
  mkFile lines err (fun _ _ => ([], None)).

Definition procOf (pid : Z) (lines : list string) (err : option error)
  : FileSystem :=
  fun path =>
    if String.eqb path (Procfs.MapsFilePathFromPid pid)
    then inl (fileOf lines err)
    else inr ("open " ++ path ++ ": no such file or directory").

(** The memory of a process as [ReadAt] of [os.File] reads it through
    the file [name]: [content] is mapped at [base] and no other address
    is mapped.  A negative offset is refused; a read of no bytes reads
    nothing and reports no error; a read that meets an address that is
    not mapped stops there with the error of the system call, so fewer
    bytes than asked for always come with an error. *)
Definition memOf (name : string) (base : Z) (content : list Byte.byte)
  : File :=
  mkFile [] None
    (fun n off =>
       if off <? 0 then ([], Some ("readat " ++ name ++ ": negative offset"))
       else if Nat.eqb n 0 then ([], None)
       else if off <? base
       then ([], Some ("read " ++ name ++ ": input/output error"))
       else
         let data := firstn n (skipn (Z.to_nat (off - base)) content) in
         if Nat.ltb (List.length data) n
         then (data, Some ("read " ++ name ++ ": input/output error"))
         else (data, None)).

Definition memoryOf (pid : Z) (base : Z) (content : list Byte.byte)
  : FileSystem :=
  fun path =>
    if String.eqb path (Procfs.MemFilePathFromPid pid)
    then inl (memOf path base content)
    else inr ("open " ++ path ++ ": no such file or directory").

Definition self : Process := mkProcess 4242.

Definition text : string :=
  "00400000-00452000 r-xp 00000000 08:02 173521      /usr/bin/dbus-daemon".
Definition rodata : string :=
  "00452000-00453000 r--p 00051000 08:02 173521      /usr/bin/dbus-daemon".
Definition guard : string :=
  "00453000-00454000 ---p 00000000 00:00 0 ".
Definition heap : string :=
  "00e03000-00e24000 rw-p 00000000 00:00 0           [heap]".
Definition stack : string :=
  "7ffd3c2f1000-7ffd3c312000 rw-p 00000000 00:00 0     [stack]".
Definition vsyscall : string :=
  "ffffffffff600000-ffffffffff601000 r-xp 00000000 00:00 0  [vsyscall]".
Definition lowpage : string :=
  "00000000-00001000 rw-p 00000000 00:00 0 ".
Definition lowguard : string :=
  "00001000-00002000 ---p 00000000 00:00 0 ".
Definition lowdata : string :=
  "00001000-00002000 r--p 00000000 00:00 0 ".
Definition garbage : string := "garbage".

(** [scanner.Err()] when reading the listing fails. *)
Definition EIO : error := "read /proc/4242/maps: input/output error".

End Sample.

(** ** A walk over the mappings *)

Section Walking.
Context {C : Common}.

(** The region [nextMemoryRegion] makes of a record. *)
Definition regionOf (line : string) : MemoryRegion :=
  mkRegion (startOf line) (sizeOf line)
    (match accessOf (permsOf line) with
     | Some access => access
     | None => NoAccess
     end)
    (kindOf line).

(** A walk over the mappings with [nextMemoryRegion]: each call is made
    at the end address of the region returned before, and the call after
    the last region returns "no region available". *)
Fixpoint walks (fs : FileSystem) (p : Process) (address : Z)
  (regions : list MemoryRegion) : Prop :=
  match regions with
  | [] => nextMemoryRegion fs p address = Returns NoRegionAvailable None []
  | region :: rest =>
      nextMemoryRegion fs p address = Returns region None [] /\
      walks fs p (wrap (Address region + Size region)) rest
  end.
End Walking.

(** * Package [process] on Linux *)

Module process.

(** ** Go's library *)

(** The functions of [strconv] and [strings] whose results depend on
    Unicode or on how errors print are the operations of a class: what is
    proved below holds for any implementation of them. *)
Class GoLibrary : Type := {
  Atoi : string -> Z + error;
  TrimSpace : string -> string;
  Fields : string -> list string
}.

(** [strings.Split(s, sep)] for a separator of one byte. *)
Fixpoint splitAcc (sep : ascii) (piece : string) (s : string)
  : list string :=
  match s with
  | EmptyString => [piece]
  | String c rest =>
      if Ascii.eqb c sep then piece :: splitAcc sep EmptyString rest
      else splitAcc sep (piece ++ String c EmptyString) rest
  end.

Definition Split (s : string) (sep : ascii) : list string :=
  splitAcc sep EmptyString s.

(** [strings.Trim(s, cutset)] for a cutset of ASCII characters. *)
Definition inCutset (cutset : string) (c : ascii) : bool :=
  existsb (Ascii.eqb c) (list_ascii_of_string cutset).

Fixpoint trimLeft (cutset : string) (s : string) : string :=
  match s with
  | EmptyString => EmptyString
  | String c rest =>
      if inCutset cutset c then trimLeft cutset rest else s
  end.

Fixpoint trimRight (cutset : string) (s : string) : string :=
  match s with
  | EmptyString => EmptyString
  | String c rest =>
      match trimRight cutset rest with
      | EmptyString =>
          if inCutset cutset c then EmptyString else String c EmptyString
      | kept => String c kept
      end
  end.

Definition Trim (s cutset : string) : string :=
  trimRight cutset (trimLeft cutset s).

(** [s[n:]] for [n <= len(s)]. *)
Fixpoint sliceFrom (n : nat) (s : string) : string :=
  match n, s with
  | O, _ => s
  | S n', String _ rest => sliceFrom n' rest
  | S _, EmptyString => EmptyString
  end.

Definition newline : ascii := "010"%char.

(** The strings [r.ReadString('\n')] returns with a nil error, for a
    reader over [data]: the lines that end with a newline, each with its
    newline.  What follows the last newline comes with [io.EOF]. *)
Fixpoint readStrings (line : string) (data : string) : list string :=
  match data with
  | EmptyString => []
  | String c rest =>
      if Ascii.eqb c newline
      then (line ++ String c EmptyString) :: readStrings EmptyString rest
      else readStrings (line ++ String c EmptyString) rest
  end.

(** What [r.ReadString] has read of an unfinished line. *)
Fixpoint unread (line : string) (data : string) : string :=
  match data with
  | EmptyString => line
  | String c rest =>
      if Ascii.eqb c newline then unread EmptyString rest
      else unread (line ++ String c EmptyString) rest
  end.

(** ** Reflection on [linuxProcessInfo] *)

Record linuxProcessInfo : Type := mkInfo {
  Id : Z;
  Command : string;
  UserId : Z;
  UserName : string;
  GroupId : Z;
  GroupName : string;
  ParentProcessId : Z;
  Executable : string
}.

(** [linuxProcessInfo{}] *)
Definition zeroInfo : linuxProcessInfo :=
  mkInfo 0 EmptyString 0 EmptyString 0 EmptyString 0 EmptyString.

(** [reflect.Type]: its [Name()], for the types [stringToReflectValue]
    tells apart. *)
Inductive GoType : Type :=
| TInt
| TString
| TOther (name : string).

Definition typeName (t : GoType) : string :=
  match t with
  | TInt => "int"
  | TString => "string"
  | TOther name => name
  end.

(** [reflect.StructField]: name, type and the [statusFileKey] of the
    tag ([Tag.Get] gives the empty string when the tag has no such
    key). *)
Record StructField : Type := mkField {
  fieldName : string;
  fieldType : GoType;
  statusFileKey : string
}.

Definition linuxProcessInfoFields : list StructField :=
  [ mkField "Id" TInt "Pid";
    mkField "Command" TString "Name";
    mkField "UserId" TInt "Uid";
    mkField "UserName" TString EmptyString;
    mkField "GroupId" TInt "Gid";
    mkField "GroupName" TString EmptyString;
    mkField "ParentProcessId" TInt "PPid";
    mkField "Executable" TString EmptyString ].

(** [t.FieldByName(name)] *)
Definition FieldByName (fields : list StructField) (name : string)
  : option StructField :=
  find (fun f => String.eqb (fieldName f) name) fields.

(** [t.FieldByNameFunc(match)] on a struct without embedded fields: the
    field whose name satisfies [match]; two names that satisfy it cancel
    each other and no field is found. *)
Fixpoint fieldScan (matches : string -> bool) (fields : list StructField)
  (result : option StructField) : option StructField :=
  match fields with
  | [] => result
  | f :: rest =>
      if matches (fieldName f) then
        match result with
        | Some _ => None
        | None => fieldScan matches rest (Some f)
        end
      else fieldScan matches rest result
  end.

Definition FieldByNameFunc (fields : list StructField)
  (matches : string -> bool) : option StructField :=
  fieldScan matches fields None.

(** [reflect.Value], for the two types of the fields. *)
Inductive Value : Type :=
| VInt (n : Z)
| VString (s : string).

(** [vfield.Set(val)]; [None] is the panic of a value of another type or
    of a field that does not exist. *)
Definition Set_ (lpi : linuxProcessInfo) (name : string) (val : Value)
  : option linuxProcessInfo :=
  let 'mkInfo id command userId userName groupId groupName parent
         executable := lpi in
  match val with
  | VInt n =>
      if String.eqb name "Id" then
        Some (mkInfo n command userId userName groupId groupName parent
                executable)
      else if String.eqb name "UserId" then
        Some (mkInfo id command n userName groupId groupName parent
                executable)
      else if String.eqb name "GroupId" then
        Some (mkInfo id command userId userName n groupName parent
                executable)
      else if String.eqb name "ParentProcessId" then
        Some (mkInfo id command userId userName groupId groupName n
                executable)
      else None
  | VString s =>
      if String.eqb name "Command" then
        Some (mkInfo id s userId userName groupId groupName parent
                executable)
      else if String.eqb name "UserName" then
        Some (mkInfo id command userId s groupId groupName parent
                executable)
      else if String.eqb name "GroupName" then
        Some (mkInfo id command userId userName groupId s parent
                executable)
      else if String.eqb name "Executable" then
        Some (mkInfo id command userId userName groupId groupName parent s)
      else None
  end.

(** [map[string]string]: [m[key]] with its [ok], and [m[key] = value]. *)
Definition StringMap : Type := string -> option string.

Definition emptyMap : StringMap := fun _ => None.

Definition mapStore (m : StringMap) (key value : string) : StringMap :=
  fun k => if String.eqb k key then Some value else m k.

(** ** The environment *)

Record Proc : Type := mkProc {
  (** [os.Open] *)
  Open : string -> File + error;
  (** the lines [bufio.NewReader(f).ReadLine()] returns before [io.EOF],
      and the other error it stops with, if any *)
  ReadLines : File -> list string * option error;
  (** [ioutil.ReadAll] *)
  ReadAll : File -> string + error;
  (** [filepath.EvalSymlinks] *)
  EvalSymlinks : string -> string + error
}.

(** What [parseStatusToStruct] leaves behind, or its panic. *)
Inductive parsed : Type :=
| Parsed (err : option error) (keyToFieldName : StringMap)
         (lpi : option linuxProcessInfo)
| ParsePanics.

(** What [Info] returns, the cache it leaves and what it writes to the
    standard error; or its panic. *)
Inductive infoResult : Type :=
| InfoReturns (info : option linuxProcessInfo) (err : option error)
              (keyToFieldName : StringMap) (stderr : list string)
| InfoPanics.

Section Process.

Context {G : GoLibrary}.

(** *** processExe *)

Definition processExe (env : Proc) (pid : Z) : string * option error :=
  let exePath := "/proc/" ++ fmt_d pid ++ "/exe" in
  match EvalSymlinks env exePath with
  | inr err =>
      (EmptyString,
       Some ("Unable to expand process executable symlink " ++ exePath
             ++ " (" ++ err ++ ")"))
  | inl name => (name, None)
  end.

(** *** Name *)

Definition namePrefix : string := "Name:".

(** [" \t"] *)
Definition blanks : string := String " "%char (String "009"%char EmptyString).

(** The loop ends at a line with the prefix, at the error of a read, or
    at the end of the file. *)
Fixpoint nameLoop (p : Process) (name : string) (lines : list string)
  (err : option error) : string * option error * list error :=
  match lines with
  | [] =>
      match err with
      | Some e => (name, Some e, [])
      | None =>
          (name, Some ("No name found for pid " ++ fmt_d (Pid p)), [])
      end
  | line :: rest =>
      if String.prefix namePrefix line then
        let name' :=
          Trim (sliceFrom (String.length namePrefix) line) blanks in
        ("[" ++ name' ++ "]", None, [])
      else nameLoop p name rest err
  end.

Definition Name (env : Proc) (p : Process)
  : string * option error * list error :=
  match processExe env (Pid p) with
  | (name, Some _) =>
      let statusPath := "/proc/" ++ fmt_d (Pid p) ++ "/status" in
      match Open env statusPath with
      | inr err => (name, Some err, [])
      | inl statusFile =>
          let '(lines, err) := ReadLines env statusFile in
          nameLoop p name lines err
      end
  | (name, None) => (name, None, [])
  end.

(** *** getFieldNameForKey *)

Definition getFieldNameForKey (keyToFieldName : StringMap) (key : string)
  : string * StringMap :=
  match keyToFieldName key with
  | Some fieldName => (fieldName, keyToFieldName)
  | None =>
      let t := linuxProcessInfoFields in
      match FieldByNameFunc t
              (fun name =>
                 match FieldByName t name with
                 | Some fieldCandidate =>
                     String.eqb (statusFileKey fieldCandidate) key
                 | None => false
                 end) with
      | None => (EmptyString, keyToFieldName)
      | Some fieldForKey =>
          let keyToFieldName' :=
            mapStore keyToFieldName key (fieldName fieldForKey) in
          (match keyToFieldName' key with
           | Some name => name
           | None => EmptyString
           end, keyToFieldName')
      end
  end.

(** *** stringToReflectValue *)

Definition stringToReflectValue (value : string) (t : GoType)
  : Value + error :=
  match t with
  | TString => inl (VString value)
  | TInt =>
      match Atoi value with
      | inr err =>
          inr ("Error converting string " ++ value
               ++ " into an integer. (" ++ err ++ ")")
      | inl intVal => inl (VInt intVal)
      end
  | TOther _ =>
      inr ("Unsupported Converstion: string " ++ value
           ++ " to value of type " ++ typeName t)
  end.

(** *** parseStatusToStruct *)

(** One line of the status data; the loop variables are the cache of
    [getFieldNameForKey] and the struct behind [lpi]. *)
Definition statusLine (st : StringMap * linuxProcessInfo) (line : string)
  : (StringMap * linuxProcessInfo) + parsed :=
  let '(keyToFieldName, lpi) := st in
  let statusComponents := Split line ":"%char in
  if negb (Nat.eqb (List.length statusComponents) 2) then inl st
  else
    let key := TrimSpace (nth 0 statusComponents EmptyString) in
    let value := TrimSpace (nth 1 statusComponents EmptyString) in
    let vals := Fields value in
    let value := match vals with v :: _ => v | [] => value end in
    let '(fieldName, keyToFieldName') :=
      getFieldNameForKey keyToFieldName key in
    match FieldByName linuxProcessInfoFields fieldName with
    | None => inl (keyToFieldName', lpi)
    | Some vfield =>
        match stringToReflectValue value (fieldType vfield) with
        | inr err => inr (Parsed (Some err) keyToFieldName' (Some lpi))
        | inl val =>
            match Set_ lpi fieldName val with
            | Some lpi' => inl (keyToFieldName', lpi')
            | None => inr ParsePanics
            end
        end
    end.

Fixpoint statusLines (st : StringMap * linuxProcessInfo)
  (lines : list string) : parsed :=
  match lines with
  | [] => Parsed None (fst st) (Some (snd st))
  | line :: rest =>
      match statusLine st line with
      | inl st' => statusLines st' rest
      | inr result => result
      end
  end.

Definition parseStatusToStruct (keyToFieldName : StringMap) (data : string)
  (lpi : option linuxProcessInfo) : parsed :=
  match lpi with
  | None =>
      Parsed
        (Some "Cannot parse Process Status into a nil LinuxProcessInfo")
        keyToFieldName None
  | Some info =>
      statusLines (keyToFieldName, info) (readStrings EmptyString data)
  end.

(** *** Info *)

(** [fmt.Sprintf("%d", p)] for the pointer [p] to a [linuxProcess]: a
    pointer to a struct prints as an ampersand and the struct in braces,
    the verb applied to its one field. *)
Definition sprintf_d_pointer (p : Process) : string :=
  "&{" ++ fmt_d (Pid p) ++ "}".

Definition Info (env : Proc) (keyToFieldName : StringMap) (p : Process)
  : infoResult :=
  let statusPath := "/proc/" ++ sprintf_d_pointer p ++ "/status" in
  match Open env statusPath with
  | inr err =>
      InfoReturns None
        (Some ("Unable to open proc " ++ fmt_d (Pid p)
               ++ "'s status file at " ++ statusPath
               ++ " (" ++ err ++ ")"))
        keyToFieldName []
  | inl statusFile =>
      match ReadAll env statusFile with
      | inr err =>
          InfoReturns None
            (Some ("Unable to read data from proc " ++ fmt_d (Pid p)
                   ++ "'s status file at " ++ statusPath
                   ++ " (" ++ err ++ ")"))
            keyToFieldName []
      | inl data =>
          match parseStatusToStruct keyToFieldName data (Some zeroInfo) with
          | ParsePanics => InfoPanics
          | Parsed (Some err) keyToFieldName' _ =>
              InfoReturns None
                (Some ("Unable to process data from " ++ statusPath
                       ++ " into LinuxProcessInfo struct (" ++ err ++ ")"))
                keyToFieldName' []
          | Parsed None keyToFieldName' None => InfoPanics
          | Parsed None keyToFieldName' (Some lpi) =>
              let '(executable, err) := processExe env (Pid p) in
              let lpi' :=
                mkInfo (Id lpi) (Command lpi) (UserId lpi) (UserName lpi)
                  (GroupId lpi) (GroupName lpi) (ParentProcessId lpi)
                  executable in
              let stderr :=
                match err with
                | Some e =>
                    ["[Warning] Error when expanding symlink to executable: "
                     ++ e ++ String newline EmptyString]
                | None => []
                end in
              InfoReturns (Some lpi') err keyToFieldName' stderr
          end
      end
  end.

(** *** Notions used in the statements *)

(** A cache that holds only what [getFieldNameForKey] stores in it. *)
Definition cacheSound (keyToFieldName : StringMap) : Prop :=
  forall key name,
    keyToFieldName key = Some name ->
    fst (getFieldNameForKey emptyMap key) = name.

(** Status data that is empty or ends with a newline. *)
Definition wholeLines (data : string) : Prop :=
  data = EmptyString \/
  exists front, data = front ++ String newline EmptyString.

(** The fields [parseStatusToStruct] does not write. *)
Definition sameNames (a b : linuxProcessInfo) : Prop :=
  UserName a = UserName b /\ GroupName a = GroupName b /\
  Executable a = Executable b.

End Process.

End process.

(** ** An implementation of Go's library *)

Module GoStrings.

Definition code (c : ascii) : nat := nat_of_ascii c.

Definition isCode (c : ascii) (n : nat) : bool := Nat.eqb (code c) n.

(** The white space of ASCII: tab, newline, vertical tab, form feed,
    carriage return, space. *)
Definition asciiSpace (c : ascii) : bool :=
  (Nat.leb 9 (code c) && Nat.leb (code c) 13) || isCode c 32.

(** The number of bytes of the white space character that [s] begins
    with, in UTF-8; 0 when it begins with none.  Beyond ASCII the white
    space of Unicode is U+0085, U+00A0, U+1680, U+2000 to U+200A, U+2028,
    U+2029, U+202F, U+205F and U+3000. *)
Definition spaceWidth (s : string) : nat :=
  match s with
  | EmptyString => 0
  | String a rest =>
      if asciiSpace a then 1
      else
        match rest with
        | String b rest' =>
            if isCode a 194 && (isCode b 133 || isCode b 160) then 2
            else
              match rest' with
              | String c _ =>
                  if (isCode a 225 && isCode b 154 && isCode c 128)
                     || (isCode a 226 && isCode b 128
                         && ((Nat.leb 128 (code c) && Nat.leb (code c) 138)
                             || isCode c 168 || isCode c 169
                             || isCode c 175))
                     || (isCode a 226 && isCode b 129 && isCode c 159)
                     || (isCode a 227 && isCode b 128 && isCode c 128)
                  then 3 else 0
              | EmptyString => 0
              end
        | EmptyString => 0
        end
  end%nat.

Fixpoint dropSpaces (fuel : nat) (s : string) : string :=
  match fuel with
  | O => s
  | S fuel' =>
      match spaceWidth s with
      | O => s
      | width => dropSpaces fuel' (process.sliceFrom width s)
      end
  end.

Fixpoint reverse (acc s : string) : string :=
  match s with
  | EmptyString => acc
  | String c rest => reverse (String c acc) rest
  end.

(** The same for the white space character that a string ends with,
    read off the reversed string: the last byte when it is white space of
    ASCII, or else the last two or the last three bytes when they are
    the whole encoding of a white space character. *)
Definition spaceWidthBack (reversed : string) : nat :=
  match reversed with
  | EmptyString => 0
  | String c before =>
      if Nat.eqb (spaceWidth (String c EmptyString)) 1 then 1
      else
        match before with
        | EmptyString => 0
        | String b before' =>
            if Nat.eqb (spaceWidth (String b (String c EmptyString))) 2
            then 2
            else
              match before' with
              | EmptyString => 0
              | String a _ =>
                  if Nat.eqb
                       (spaceWidth
                          (String a (String b (String c EmptyString)))) 3
                  then 3 else 0
              end
        end
  end%nat.

Fixpoint dropSpacesBack (fuel : nat) (reversed : string) : string :=
  match fuel with
  | O => reversed
  | S fuel' =>
      match spaceWidthBack reversed with
      | O => reversed
      | width => dropSpacesBack fuel' (process.sliceFrom width reversed)
      end
  end.

(** [strings.TrimSpace] *)
Definition TrimSpace (s : string) : string :=
  let left := dropSpaces (String.length s) s in
  reverse EmptyString
    (dropSpacesBack (String.length left) (reverse EmptyString left)).

Fixpoint fieldsLoop (fuel : nat) (field : option string) (s : string)
  : list string :=
  let flush := match field with Some f => [f] | None => [] end in
  match fuel with
  | O => flush
  | S fuel' =>
      match s with
      | EmptyString => flush
      | String c rest =>
          match spaceWidth s with
          | O =>
              fieldsLoop fuel'
                (Some (match field with
                       | Some f => f ++ String c EmptyString
                       | None => String c EmptyString
                       end))
                rest
          | width => (flush ++ fieldsLoop fuel' None (process.sliceFrom width s))%list
          end
      end
  end.

(** [strings.Fields] *)
Definition Fields (s : string) : list string :=
  fieldsLoop (S (String.length s)) None s.

Definition digitOf (c : ascii) : option Z :=
  if (Nat.leb 48 (code c) && Nat.leb (code c) 57)%bool
  then Some (Z.of_nat (code c) - 48) else None.

(** What [strconv.ParseUint] finds in base 10 with 64 bits: a number, a
    byte that is no digit, or a number that passes 64 bits.  It reads from
    the left and stops at the first of the two failures. *)
Inductive scanned : Type :=
| Digits (n : Z)
| NotANumber
| TooLarge.

Fixpoint digits (acc : Z) (s : string) : scanned :=
  match s with
  | EmptyString => Digits acc
  | String c rest =>
      match digitOf c with
      | Some d =>
          if 2 ^ 64 <=? 10 * acc + d then TooLarge
          else digits (10 * acc + d) rest
      | None => NotANumber
      end
  end.

Definition between (lo n hi : nat) : bool :=
  (Nat.leb lo n && Nat.leb n hi)%bool.

Definition hexDigit (n : nat) : ascii :=
  nth n (list_ascii_of_string "0123456789abcdef") "0"%char.

(** Two hexadecimal digits, lower case. *)
Definition hex2 (n : nat) : string :=
  String (hexDigit (Nat.div n 16))
    (String (hexDigit (Nat.modulo n 16)) EmptyString).

Definition backslash : ascii := "092"%char.

(** How [strconv.Quote] prints a byte of ASCII: the quote and the
    backslash after a backslash, the printable characters as they stand,
    the control characters by their letter or in hexadecimal. *)
Definition quoteAscii (c : ascii) : string :=
  let n := code c in
  let escaped (letter : string) := String backslash letter in
  if Nat.eqb n 34 then escaped (String c EmptyString)
  else if Nat.eqb n 92 then escaped (String c EmptyString)
  else if between 32 n 126 then String c EmptyString
  else if Nat.eqb n 7 then escaped "a"
  else if Nat.eqb n 8 then escaped "b"
  else if Nat.eqb n 12 then escaped "f"
  else if Nat.eqb n 10 then escaped "n"
  else if Nat.eqb n 13 then escaped "r"
  else if Nat.eqb n 9 then escaped "t"
  else if Nat.eqb n 11 then escaped "v"
  else escaped ("x" ++ hex2 n).

Definition continuation (c : ascii) : bool := between 128 (code c) 191.

(** The number of bytes of the character beyond ASCII that [s] begins
    with, in UTF-8; 0 when [s] begins with no well-formed encoding. *)
Definition runeWidth (s : string) : nat :=
  match s with
  | String a (String b rest) =>
      let n := code a in
      let m := code b in
      if (between 194 n 223 && continuation b)%bool then 2
      else
        match rest with
        | String c rest' =>
            if ((Nat.eqb n 224 && between 160 m 191 && continuation c)
                || ((between 225 n 236 || between 238 n 239)
                    && continuation b && continuation c)
                || (Nat.eqb n 237 && between 128 m 159 && continuation c))%bool
            then 3
            else
              match rest' with
              | String d _ =>
                  if ((Nat.eqb n 240 && between 144 m 191
                       && continuation c && continuation d)
                      || (between 241 n 243 && continuation b
                          && continuation c && continuation d)
                      || (Nat.eqb n 244 && between 128 m 143
                          && continuation c && continuation d))%bool
                  then 4 else 0
              | EmptyString => 0
              end
        | EmptyString => 0
        end
  | _ => 0
  end%nat.

Fixpoint take (n : nat) (s : string) : string :=
  match n, s with
  | S n', String c rest => String c (take n' rest)
  | _, _ => EmptyString
  end.

(** A character of two bytes is at most U+00FF when its first byte is
    0xC2 or 0xC3; of these [strconv.Quote] copies U+00A1 to U+00FF but
    the soft hyphen U+00AD, and prints the others as [\u00XX]. *)
Definition quoteRune (width : nat) (s : string) : string :=
  match s with
  | String a (String b _) =>
      if (Nat.eqb width 2 && between 194 (code a) 195)%bool then
        let r := ((code a - 192) * 64 + (code b - 128))%nat in
        if (between 161 r 255 && negb (Nat.eqb r 173))%bool
        then take width s
        else String backslash ("u00" ++ hex2 r)
      else take width s
  | _ => take width s
  end.

(** The inside of [strconv.Quote(s)].  A byte that begins no well-formed
    encoding is printed in hexadecimal.  Characters above U+00FF are
    copied, as [strconv.Quote] copies those that are printable. *)
Fixpoint quoteLoop (fuel : nat) (s : string) : string :=
  match fuel with
  | O => EmptyString
  | S fuel' =>
      match s with
      | EmptyString => EmptyString
      | String c rest =>
          if Nat.ltb (code c) 128 then quoteAscii c ++ quoteLoop fuel' rest
          else
            match runeWidth s with
            | O =>
                String backslash ("x" ++ hex2 (code c))
                ++ quoteLoop fuel' rest
            | width =>
                quoteRune width s
                ++ quoteLoop fuel' (process.sliceFrom width s)
            end
      end
  end.

Definition Quote (s : string) : string :=
  String "034"%char
    (quoteLoop (String.length s) s ++ String "034"%char EmptyString).

(** How a [*strconv.NumError] of [Atoi] prints. *)
Definition numError (s reason : string) : error :=
  "strconv.Atoi: parsing " ++ Quote s ++ ": " ++ reason.

(** [strconv.Atoi] where [int] has 64 bits: an optional sign and decimal
    digits, in the range of [int]. *)
Definition Atoi (s : string) : Z + error :=
  let '(negative, body) :=
    match s with
    | String c rest =>
        if isCode c 45 then (true, rest)
        else if isCode c 43 then (false, rest)
        else (false, s)
    | EmptyString => (false, s)
    end in
  match body with
  | EmptyString => inr (numError s "invalid syntax")
  | _ =>
      match digits 0 body with
      | NotANumber => inr (numError s "invalid syntax")
      | TooLarge => inr (numError s "value out of range")
      | Digits n =>
          let v := if negative then - n else n in
          if (- 2 ^ 63 <=? v) && (v <? 2 ^ 63) then inl v
          else inr (numError s "value out of range")
      end
  end.

End GoStrings.

#[export] Instance goStrings : process.GoLibrary := {|
  process.Atoi := GoStrings.Atoi;
  process.TrimSpace := GoStrings.TrimSpace;
  process.Fields := GoStrings.Fields
|}.


(** ** A sample process *)

Module ProcSample.

Definition tab : string := String "009"%char EmptyString.
Definition nl : string := String process.newline EmptyString.

(** The lines of a status file, without their newlines. *)
Definition statusRecords : list string :=
  [ "Name:" ++ tab ++ "cat";
    "Umask:" ++ tab ++ "0022";
    "State:" ++ tab ++ "R (running)";
    "Pid:" ++ tab ++ "4242";
    "PPid:" ++ tab ++ "1";
    "Uid:" ++ tab ++ "1000" ++ tab ++ "1000" ++ tab ++ "1000";
    "Gid:" ++ tab ++ "100" ++ tab ++ "100" ++ tab ++ "100" ].

Definition statusData : string :=
  String.concat EmptyString (map (fun line => line ++ nl) statusRecords).

Definition statusFile : File := Sample.fileOf statusRecords None.

(** A system where the file [statusAt] is the status file above, every
    other file is missing, and the link [/proc/4242/exe] resolves to
    [/usr/bin/cat] when [linked] holds. *)
Definition envOf (statusAt : string) (linked : bool) : process.Proc :=
  process.mkProc
    (fun path =>
       if String.eqb path statusAt then inl statusFile
       else inr ("open " ++ path ++ ": no such file or directory"))
    (fun file => (file_lines file, file_scan_err file))
    (fun file =>
       inl (String.concat EmptyString
              (map (fun line => line ++ nl) (file_lines file))))
    (fun path =>
       if linked && String.eqb path "/proc/4242/exe"
       then inl "/usr/bin/cat"
       else inr ("lstat " ++ path ++ ": no such file or directory")).

(** The system [env] without the file at [path]. *)
Definition without (path : string) (env : process.Proc)
  : process.Proc :=
  process.mkProc
    (fun q =>
       if String.eqb q path
       then inr ("open " ++ q ++ ": no such file or directory")
       else process.Open env q)
    (process.ReadLines env) (process.ReadAll env)
    (process.EvalSymlinks env).

(** The cache of [getFieldNameForKey] after the keys [Pid] and [Name]. *)
Definition cacheOfPidAndName : process.StringMap :=
  process.mapStore (process.mapStore process.emptyMap "Pid" "Id")
    "Name" "Command".

End ProcSample.

(** * Properties *)

(** ** The model of [common] is an instance *)

Lemma parseHex_range (s : string) (v : Z) :
  Procfs.parseHex s = inl v -> 0 <= v < modulus.
Proof.
  unfold Procfs.parseHex.
  destruct s as [|c s]; [discriminate|].
  destruct (Procfs.hexValue 0 (String c s)) as [w|]; [|discriminate].
  destruct ((0 <=? w) && (w <? modulus)) eqn:E; [|discriminate].
  intros H; injection H as <-.
  apply andb_true_iff in E as [E1 E2].
  apply Z.leb_le in E1. apply Z.ltb_lt in E2. lia.
Qed.

Lemma Procfs_limits_range (limits : string) (lo hi : Z) :
  Procfs.ParseMapsFileMemoryLimits limits = inl (lo, hi) ->
  0 <= lo < modulus /\ 0 <= hi < modulus.
Proof.
  unfold Procfs.ParseMapsFileMemoryLimits.
  destruct (Procfs.cut dash limits) as [[a rest]|]; [|discriminate].
  destruct (Procfs.parseHex a) as [x|] eqn:Ex; [|discriminate].
  destruct (Procfs.parseHex _) as [y|] eqn:Ey in |- *; [|discriminate].
  intros H; injection H as <- <-.
  split; eapply parseHex_range; eassumption.
Qed.

#[export] Instance procfs : Common := {|
  MapsFilePathFromPid := Procfs.MapsFilePathFromPid;
  MemFilePathFromPid := Procfs.MemFilePathFromPid;
  SplitMapsFileEntry := Procfs.SplitMapsFileEntry;
  ParseMapsFileMemoryLimits := Procfs.ParseMapsFileMemoryLimits;
  ParseMapsFileMemoryLimits_range := Procfs_limits_range
|}.


(** ** Loops and records *)

Section Loops.

Context {C : Common}.

Lemma scan_app {S : Type} (body : S -> string -> flow S) (s : S)
  (front back : list string) :
  scan body s (front ++ back)%list =
  match scan body s front with
  | Next s' => scan body s' back
  | Exit o => Exit o
  end.
Proof.
  revert s; induction front as [|line front IH]; intros s; simpl.
  - reflexivity.
  - destruct (body s line); [apply IH | reflexivity].
Qed.

Lemma scan_all_next {S : Type} (body : S -> string -> flow S) (s : S)
  (lines : list string) :
  Forall (fun line => body s line = Next s) lines ->
  scan body s lines = Next s.
Proof.
  induction 1 as [|line lines Hl _ IH]; simpl; [reflexivity|].
  now rewrite Hl.
Qed.

Lemma limitsOf_fields (line : string) (start end_ : Z) :
  limitsOf line = Some (start, end_) ->
  List.length (SplitMapsFileEntry line) = 6%nat /\
  ParseMapsFileMemoryLimits (rangeOf line) = inl (start, end_).
Proof.
  unfold limitsOf, rangeOf.
  destruct (Nat.eqb _ 6) eqn:E; [|discriminate].
  apply Nat.eqb_eq in E.
  destruct (ParseMapsFileMemoryLimits _) as [p|]; [|discriminate].
  intros H; injection H as ->. auto.
Qed.

Lemma limitsOf_range (line : string) (start end_ : Z) :
  limitsOf line = Some (start, end_) ->
  0 <= start < modulus /\ 0 <= end_ < modulus.
Proof.
  intros H. apply limitsOf_fields in H as [_ H].
  eapply ParseMapsFileMemoryLimits_range; eassumption.
Qed.

Lemma limitsOf_start_end (line : string) (start end_ : Z) :
  limitsOf line = Some (start, end_) ->
  startOf line = start /\ endOf line = end_ /\
  sizeOf line = wrap (end_ - start).
Proof.
  intros H. unfold sizeOf, startOf, endOf. rewrite H. auto.
Qed.

(** The body of [nextMemoryRegion]'s loop on a record that has six fields
    and a range that parses. *)
Lemma nextMemoryRegion_body_entry (address : Z)
  (st : MemoryRegion * list error) (line : string) (start end_ : Z) :
  limitsOf line = Some (start, end_) ->
  nextMemoryRegion_body address st line =
  if isVsyscall line then Next st
  else if end_ <=? address then Next st
  else
    match accessOf (permsOf line) with
    | None => Exit Panics
    | Some access =>
        Exit (Returns (mkRegion start (wrap (end_ - start)) access
                         (kindOf line)) None (snd st))
    end.
Proof.
  intros H. apply limitsOf_fields in H as [Hlen Hparse].
  unfold nextMemoryRegion_body. destruct st as [region softerrors].
  unfold rangeOf in Hparse. cbv zeta.
  rewrite Hlen, Hparse. reflexivity.
Qed.

(** The body of [nextReadableMemoryRegion]'s loop on such a record. *)
Lemma nextReadableMemoryRegion_body_entry (address : Z)
  (region : MemoryRegion) (softerrors : list error) (line : string)
  (start end_ : Z) :
  limitsOf line = Some (start, end_) ->
  nextReadableMemoryRegion_body address (region, softerrors) line =
  if end_ <=? address then Next (region, softerrors)
  else if isVsyscall line then Next (region, softerrors)
  else
    match String.get 0 (permsOf line) with
    | None => Exit Panics
    | Some c =>
        if Ascii.eqb c dash then
          if negb (Address region =? 0) then
            Exit (Returns region None softerrors)
          else Next (region, List.app softerrors [unreadableError line])
        else if Address region =? 0 then
          Next (mkRegion start (wrap (end_ - start)) NoAccess EmptyString,
                softerrors)
        else if wrap (Address region + Size region) =? start then
          Next (mkRegion (Address region)
                  (wrap (Size region + wrap (end_ - start)))
                  (Access region) (Kind region), softerrors)
        else Exit (Returns region None softerrors)
    end.
Proof.
  intros H. apply limitsOf_fields in H as [Hlen Hparse].
  unfold nextReadableMemoryRegion_body.
  unfold rangeOf in Hparse. cbv zeta.
  rewrite Hlen, Hparse. reflexivity.
Qed.

(** A record that is not [considered] is passed over by both loops, when
    it is well formed. *)
Lemma nextMemoryRegion_body_skip (address : Z)
  (st : MemoryRegion * list error) (line : string) :
  limitsOf line <> None -> considered address line = false ->
  nextMemoryRegion_body address st line = Next st.
Proof.
  unfold considered. destruct (limitsOf line) as [[start end_]|] eqn:E;
    [intros _ H | congruence].
  rewrite (nextMemoryRegion_body_entry _ _ _ _ _ E).
  destruct (isVsyscall line); [reflexivity|].
  destruct (end_ <=? address); [reflexivity | discriminate].
Qed.

Lemma nextReadableMemoryRegion_body_skip (address : Z)
  (st : MemoryRegion * list error) (line : string) :
  limitsOf line <> None -> considered address line = false ->
  nextReadableMemoryRegion_body address st line = Next st.
Proof.
  unfold considered. destruct (limitsOf line) as [[start end_]|] eqn:E;
    [intros _ H | congruence].
  destruct st as [region softerrors].
  rewrite (nextReadableMemoryRegion_body_entry _ _ _ _ _ _ E).
  destruct (end_ <=? address); [reflexivity|].
  destruct (isVsyscall line); [reflexivity | discriminate].
Qed.

Lemma considered_entry (address : Z) (line : string) :
  considered address line = true ->
  limitsOf line = Some (startOf line, endOf line) /\
  (endOf line <=? address) = false /\ isVsyscall line = false.
Proof.
  unfold considered, startOf, endOf.
  destruct (limitsOf line) as [[start end_]|]; [|discriminate].
  intros H. apply andb_true_iff in H as [H1 H2].
  apply negb_true_iff in H1, H2. auto.
Qed.

(** An unreadable record: the region is returned when its address is not
    zero; otherwise one softerror is appended and the loop goes on. *)
Lemma nextReadableMemoryRegion_body_unreadable (address : Z)
  (region : MemoryRegion) (softerrors : list error) (line : string) :
  considered address line = true -> unreadable line = true ->
  nextReadableMemoryRegion_body address (region, softerrors) line =
  if negb (Address region =? 0) then Exit (Returns region None softerrors)
  else Next (region, List.app softerrors [unreadableError line]).
Proof.
  intros Hc Hu. apply considered_entry in Hc as (E & He & Hv).
  rewrite (nextReadableMemoryRegion_body_entry _ _ _ _ _ _ E), He, Hv.
  unfold unreadable in Hu.
  destruct (String.get 0 (permsOf line)) as [c|]; [|discriminate].
  now rewrite Hu.
Qed.

(** A readable record: it starts a region when the region's address is
    zero, extends the region when it begins at the region's end, and ends
    the loop otherwise. *)
Lemma nextReadableMemoryRegion_body_readable (address : Z)
  (region : MemoryRegion) (softerrors : list error) (line : string) :
  considered address line = true -> readable line = true ->
  nextReadableMemoryRegion_body address (region, softerrors) line =
  if Address region =? 0 then
    Next (mkRegion (startOf line) (sizeOf line) NoAccess EmptyString,
          softerrors)
  else if wrap (Address region + Size region) =? startOf line then
    Next (mkRegion (Address region) (wrap (Size region + sizeOf line))
            (Access region) (Kind region), softerrors)
  else Exit (Returns region None softerrors).
Proof.
  intros Hc Hr. apply considered_entry in Hc as (E & He & Hv).
  rewrite (nextReadableMemoryRegion_body_entry _ _ _ _ _ _ E), He, Hv.
  destruct (limitsOf_start_end _ _ _ E) as (_ & _ & ->).
  unfold readable in Hr.
  destruct (String.get 0 (permsOf line)) as [c|]; [|discriminate].
  apply negb_true_iff in Hr. now rewrite Hr.
Qed.

End Loops.

(** ** The two enumerators on an opened listing *)

Section Enumerators.

Context {C : Common}.

Lemma nextMemoryRegion_opened (fs : FileSystem) (p : Process) (address : Z)
  (mapsFile : File) :
  fs (MapsFilePathFromPid (Pid p)) = inl mapsFile ->
  nextMemoryRegion fs p address =
  match scan (nextMemoryRegion_body address) (zeroRegion, [])
             (file_lines mapsFile) with
  | Exit o => o
  | Next (_, softerrors) => Returns NoRegionAvailable None softerrors
  end.
Proof. intros H. unfold nextMemoryRegion. now rewrite H. Qed.

Lemma nextReadableMemoryRegion_opened (fs : FileSystem) (p : Process)
  (address : Z) (mapsFile : File) :
  fs (MapsFilePathFromPid (Pid p)) = inl mapsFile ->
  nextReadableMemoryRegion fs p address =
  match scan (nextReadableMemoryRegion_body address) (zeroRegion, [])
             (file_lines mapsFile) with
  | Exit o => o
  | Next (region, softerrors) =>
      match file_scan_err mapsFile with
      | Some err => Returns NoRegionAvailable (Some err) softerrors
      | None =>
          if 0 <? Address region then Returns region None softerrors
          else Returns NoRegionAvailable None softerrors
      end
  end.
Proof. intros H. unfold nextReadableMemoryRegion. now rewrite H. Qed.

(** [nextMemoryRegion]'s loop changes neither of its variables. *)
Lemma nextMemoryRegion_scan_next (address : Z)
  (st st' : MemoryRegion * list error) (lines : list string) :
  scan (nextMemoryRegion_body address) st lines = Next st' -> st' = st.
Proof.
  revert st; induction lines as [|line lines IH]; intros st; simpl.
  - congruence.
  - destruct (nextMemoryRegion_body address st line) as [s|o] eqn:E;
      [|discriminate].
    assert (s = st) as ->; [|apply IH].
    unfold nextMemoryRegion_body in E. destruct st as [region softerrors].
    cbv zeta in E.
    destruct (negb _); [discriminate|].
    destruct (ParseMapsFileMemoryLimits _) as [[start end_]|];
      [|discriminate].
    destruct (String.eqb _ _); [congruence|].
    destruct (end_ <=? address); [congruence|].
    destruct (accessOf _); discriminate.
Qed.

(** The records [nextMemoryRegion] passes over. *)
Lemma nextMemoryRegion_scan_skip (address : Z)
  (st : MemoryRegion * list error) (lines : list string) :
  Forall (fun line => exists start end_,
            limitsOf line = Some (start, end_) /\
            (end_ <= address \/ isVsyscall line = true)) lines ->
  scan (nextMemoryRegion_body address) st lines = Next st.
Proof.
  intros H. apply scan_all_next.
  eapply Forall_impl; [|exact H]. cbv beta.
  intros line (start & end_ & E & Hskip).
  rewrite (nextMemoryRegion_body_entry _ _ _ _ _ E).
  destruct (isVsyscall line); [reflexivity|].
  destruct Hskip as [Hle|]; [|discriminate].
  apply Z.leb_le in Hle. now rewrite Hle.
Qed.

(** C6.  A record that does not split into six fields makes both
    enumerators return at once: the fatal error is the "Unrecognised maps
    line" error that quotes the record, and the region and the softerrors
    are those the loop held when it reached the record, so the record is
    neither skipped nor turned into a softerror. *)
Theorem malformed_record_is_fatal (fs : FileSystem) (p : Process)
  (address : Z) (mapsFile : File) (front : list string) (line : string)
  (back : list string) :
  fs (MapsFilePathFromPid (Pid p)) = inl mapsFile ->
  file_lines mapsFile = (front ++ line :: back)%list ->
  List.length (SplitMapsFileEntry line) <> 6%nat ->
  (forall region softerrors,
      scan (nextMemoryRegion_body address) (zeroRegion, []) front
      = Next (region, softerrors) ->
      nextMemoryRegion fs p address
      = Returns region (Some (unrecognisedError line)) softerrors) /\
  (forall region softerrors,
      scan (nextReadableMemoryRegion_body address) (zeroRegion, []) front
      = Next (region, softerrors) ->
      nextReadableMemoryRegion fs p address
      = Returns region (Some (unrecognisedError line)) softerrors).
Proof.
  intros Hopen Hlines Hlen.
  apply Nat.eqb_neq in Hlen.
  split; intros region softerrors Hfront.
  - rewrite (nextMemoryRegion_opened _ _ _ _ Hopen), Hlines, scan_app, Hfront.
    simpl. now rewrite Hlen.
  - rewrite (nextReadableMemoryRegion_opened _ _ _ _ Hopen), Hlines, scan_app,
      Hfront.
    simpl. now rewrite Hlen.
Qed.

(** C3, as amended.  [nextMemoryRegion] returns the first record that is
    not the [vsyscall] page and whose end is strictly greater than the
    address, whatever its permissions: the records before it end at or
    below the address or are the [vsyscall] page.  Base address, size,
    permission bits and kind tag are those of the record. *)
Theorem nextMemoryRegion_first_entry (fs : FileSystem) (p : Process)
  (address : Z) (mapsFile : File) (front : list string) (line : string)
  (back : list string) (start end_ access : Z) :
  fs (MapsFilePathFromPid (Pid p)) = inl mapsFile ->
  file_lines mapsFile = (front ++ line :: back)%list ->
  Forall (fun l => exists s e, limitsOf l = Some (s, e) /\
                     (e <= address \/ isVsyscall l = true)) front ->
  limitsOf line = Some (start, end_) ->
  isVsyscall line = false ->
  address < end_ ->
  accessOf (permsOf line) = Some access ->
  nextMemoryRegion fs p address =
  Returns (mkRegion start (wrap (end_ - start)) access (kindOf line)) None [].
Proof.
  intros Hopen Hlines Hfront Hlim Hv Hlt Hacc.
  rewrite (nextMemoryRegion_opened _ _ _ _ Hopen), Hlines, scan_app.
  rewrite (nextMemoryRegion_scan_skip _ _ _ Hfront). cbn [scan].
  rewrite (nextMemoryRegion_body_entry _ _ _ _ _ Hlim), Hv, Hacc.
  apply Z.leb_gt in Hlt. now rewrite Hlt.
Qed.

(** The permission bits of a record: one bit for each of the first three
    characters that is not a dash. *)
Lemma accessOf_bits (perms : string) (access : Z) :
  accessOf perms = Some access ->
  forall r w x,
    String.get 0 perms = Some r -> String.get 1 perms = Some w ->
    String.get 2 perms = Some x ->
    Z.testbit access 0 = negb (Ascii.eqb r dash) /\
    Z.testbit access 1 = negb (Ascii.eqb w dash) /\
    Z.testbit access 2 = negb (Ascii.eqb x dash).
Proof.
  unfold accessOf. intros H r w x Hr Hw Hx.
  rewrite Hr, Hw, Hx in H. injection H as <-.
  destruct (Ascii.eqb r dash), (Ascii.eqb w dash), (Ascii.eqb x dash);
    repeat split; reflexivity.
Qed.

(** A [vsyscall] record can be taken out of the listing. *)
Lemma scan_without_skipped {S : Type} (body : S -> string -> flow S)
  (line : string) :
  (forall s, body s line = Next s) ->
  forall (front back : list string) (s : S),
    scan body s (front ++ line :: back)%list = scan body s (front ++ back)%list.
Proof.
  intros Hskip front back s. rewrite !scan_app.
  destruct (scan body s front) as [s'|o]; [|reflexivity].
  simpl. now rewrite Hskip.
Qed.

(** C8, as amended.  A [vsyscall] record is skipped without any trace:
    both enumerators return the region, the fatal error and the
    softerrors they return on the listing without that record, so no
    softerror records the skip. *)
Theorem vsyscall_skipped_silently (fs fs' : FileSystem) (p : Process)
  (address : Z) (mapsFile mapsFile' : File) (front : list string)
  (line : string) (back : list string) :
  fs (MapsFilePathFromPid (Pid p)) = inl mapsFile ->
  fs' (MapsFilePathFromPid (Pid p)) = inl mapsFile' ->
  file_lines mapsFile = (front ++ line :: back)%list ->
  file_lines mapsFile' = (front ++ back)%list ->
  file_scan_err mapsFile' = file_scan_err mapsFile ->
  limitsOf line <> None ->
  isVsyscall line = true ->
  nextMemoryRegion fs p address = nextMemoryRegion fs' p address /\
  nextReadableMemoryRegion fs p address
  = nextReadableMemoryRegion fs' p address.
Proof.
  intros Hopen Hopen' Hlines Hlines' Herr Hwf Hv.
  assert (Hc : considered address line = false).
  { unfold considered. destruct (limitsOf line) as [[s e]|]; [|reflexivity].
    rewrite Hv. apply andb_false_r. }
  split.
  - rewrite (nextMemoryRegion_opened _ _ _ _ Hopen),
      (nextMemoryRegion_opened _ _ _ _ Hopen'), Hlines, Hlines'.
    rewrite scan_without_skipped; [reflexivity|].
    intros s. now apply nextMemoryRegion_body_skip.
  - rewrite (nextReadableMemoryRegion_opened _ _ _ _ Hopen),
      (nextReadableMemoryRegion_opened _ _ _ _ Hopen'), Hlines, Hlines', Herr.
    rewrite scan_without_skipped; [reflexivity|].
    intros s. now apply nextReadableMemoryRegion_body_skip.
Qed.

End Enumerators.

(** ** What a returned region carries *)

Section Regions.

Context {C : Common}.

Lemma nextReadableMemoryRegion_body_bare (address : Z)
  (region : MemoryRegion) (softerrors : list error) (line : string) :
  bare region ->
  match nextReadableMemoryRegion_body address (region, softerrors) line with
  | Next (region', _) => bare region'
  | Exit (Returns region' _ _) => bare region'
  | Exit Panics => True
  end.
Proof.
  intros Hbare. unfold nextReadableMemoryRegion_body. cbv zeta.
  destruct (negb _); [exact Hbare|].
  destruct (ParseMapsFileMemoryLimits _) as [[start end_]|err];
    [|exact Hbare].
  destruct (end_ <=? address); [exact Hbare|].
  destruct (String.eqb _ _); [exact Hbare|].
  destruct (String.get 0 _) as [c|]; [|exact I].
  destruct (Ascii.eqb c dash).
  - destruct (negb _); exact Hbare.
  - destruct (Address region =? 0); [split; reflexivity|].
    destruct (_ =? start); exact Hbare.
Qed.

Lemma nextReadableMemoryRegion_scan_bare (address : Z)
  (lines : list string) (region : MemoryRegion) (softerrors : list error) :
  bare region ->
  match scan (nextReadableMemoryRegion_body address) (region, softerrors)
             lines with
  | Next (region', _) => bare region'
  | Exit (Returns region' _ _) => bare region'
  | Exit Panics => True
  end.
Proof.
  revert region softerrors.
  induction lines as [|line lines IH]; intros region softerrors Hbare.
  - exact Hbare.
  - cbn [scan].
    pose proof (nextReadableMemoryRegion_body_bare address region softerrors
                  line Hbare) as Hbody.
    destruct (nextReadableMemoryRegion_body address (region, softerrors) line)
      as [[region' softerrors']|o].
    + now apply IH.
    + exact Hbody.
Qed.

(** When [nextMemoryRegion]'s loop returns with a nil fatal error, it
    returns a record of the listing. *)
Lemma nextMemoryRegion_scan_returns (address : Z) (lines : list string)
  (st : MemoryRegion * list error) (region : MemoryRegion)
  (softerrors : list error) :
  scan (nextMemoryRegion_body address) st lines
  = Exit (Returns region None softerrors) ->
  exists line start end_ access,
    In line lines /\ limitsOf line = Some (start, end_) /\
    isVsyscall line = false /\ address < end_ /\
    accessOf (permsOf line) = Some access /\
    region = mkRegion start (wrap (end_ - start)) access (kindOf line).
Proof.
  revert st; induction lines as [|line lines IH]; intros st; cbn [scan].
  - discriminate.
  - destruct (nextMemoryRegion_body address st line) as [st'|o] eqn:E.
    + intros H. destruct (IH _ H) as (l & s & e & a & Hin & Hrest).
      exists l, s, e, a. split; [now right | exact Hrest].
    + intros H. injection H as ->.
      destruct (limitsOf line) as [[start end_]|] eqn:Hlim.
      * rewrite (nextMemoryRegion_body_entry _ _ _ _ _ Hlim) in E.
        destruct (isVsyscall line) eqn:Hv; [discriminate|].
        destruct (end_ <=? address) eqn:Hle; [discriminate|].
        destruct (accessOf (permsOf line)) as [access|] eqn:Hacc;
          [|discriminate].
        injection E as <- _. apply Z.leb_gt in Hle.
        exists line, start, end_, access. repeat split; auto. now left.
      * exfalso. unfold limitsOf in Hlim.
        unfold nextMemoryRegion_body in E. destruct st as [r0 s0].
        cbv zeta in E, Hlim.
        destruct (Nat.eqb _ 6); [|discriminate]. cbn [negb] in E.
        destruct (ParseMapsFileMemoryLimits _) as [[a b]|];
          discriminate.
Qed.

(** C10.  A region returned by [nextReadableMemoryRegion] has the zero
    permission bitmask and the empty kind tag, whatever the records
    merged into it; a region that [nextMemoryRegion] returns with a nil
    fatal error is "no region available" or has the permission bits and
    the kind tag of a record of the listing. *)
Theorem nextReadableMemoryRegion_bare_region (fs : FileSystem) (p : Process)
  (address : Z) :
  (forall region harderror softerrors,
      nextReadableMemoryRegion fs p address
      = Returns region harderror softerrors ->
      Access region = NoAccess /\ Kind region = EmptyString /\
      Z.testbit (Access region) 0 = false /\
      Z.testbit (Access region) 1 = false /\
      Z.testbit (Access region) 2 = false) /\
  (forall region softerrors,
      nextMemoryRegion fs p address = Returns region None softerrors ->
      region = NoRegionAvailable \/
      exists mapsFile line,
        fs (MapsFilePathFromPid (Pid p)) = inl mapsFile /\
        In line (file_lines mapsFile) /\
        accessOf (permsOf line) = Some (Access region) /\
        Kind region = kindOf line).
Proof.
  split.
  - intros region harderror softerrors H.
    assert (Hbare : bare region).
    { unfold nextReadableMemoryRegion in H.
      destruct (fs _) as [mapsFile|err].
      - pose proof (nextReadableMemoryRegion_scan_bare address
                      (file_lines mapsFile) zeroRegion []
                      (conj eq_refl eq_refl)) as Hscan.
        destruct (scan _ _ _) as [[region' softerrors']|o].
        + destruct (file_scan_err mapsFile).
          * injection H as <- _ _. split; reflexivity.
          * destruct (0 <? Address region').
            -- injection H as <- _ _. exact Hscan.
            -- injection H as <- _ _. split; reflexivity.
        + subst o. exact Hscan.
      - injection H as <- _ _. split; reflexivity. }
    destruct Hbare as [Ha Hk]. rewrite Ha. repeat split; assumption.
  - intros region softerrors H.
    unfold nextMemoryRegion in H.
    destruct (fs _) as [mapsFile|err] eqn:Hopen; [|discriminate].
    destruct (scan _ _ _) as [[region' softerrors']|o] eqn:Hscan.
    + injection H as <- _. now left.
    + subst o. right.
      apply nextMemoryRegion_scan_returns in Hscan
        as (line & start & end_ & access & Hin & _ & _ & _ & Hacc & ->).
      exists mapsFile, line. auto.
Qed.

End Regions.

(** ** The memory reader *)

Section Reader.

Context {C : Common}.

(** C7.  When [copyMemory] returns a nil fatal error, the memory file was
    opened and the positioned read at the address returned no error and
    filled the whole buffer: the buffer then holds exactly its length in
    bytes, those the read obtained.  When the positioned read returns
    fewer bytes than the buffer holds, the fatal error is not nil. *)
Theorem copyMemory_exact_fill (fs : FileSystem) (p : Process) (address : Z)
  (buffer : list Byte.byte) (harderror : option error)
  (softerrors : list error) (buffer' : list Byte.byte) :
  copyMemory fs p address buffer = (harderror, softerrors, buffer') ->
  (harderror = None ->
   exists mem data,
     fs (MemFilePathFromPid (Pid p)) = inl mem /\
     file_pread mem (List.length buffer) (int64 address) = (data, None) /\
     buffer' = firstn (List.length buffer) data /\
     List.length buffer' = List.length buffer) /\
  (forall mem bytes_read err filled,
      fs (MemFilePathFromPid (Pid p)) = inl mem ->
      ReadAt mem buffer (int64 address) = (bytes_read, err, filled) ->
      bytes_read < Z.of_nat (List.length buffer) ->
      harderror <> None).
Proof.
  unfold copyMemory. intros H.
  destruct (fs _) as [mem|e] eqn:Hopen.
  - destruct (ReadAt mem buffer (int64 address)) as [[n err] filled] eqn:Hread.
    split.
    + intros ->.
      destruct err as [e|]; [discriminate|].
      destruct (n =? Z.of_nat (List.length buffer)) eqn:Hn; [|discriminate].
      cbn [negb] in H. injection H as _ <-.
      apply Z.eqb_eq in Hn.
      unfold ReadAt in Hread.
      destruct (file_pread mem (List.length buffer) (int64 address))
        as [data err'] eqn:Hpread.
      injection Hread as Hlen -> <-.
      assert (Hfull : List.length (firstn (List.length buffer) data)
                      = List.length buffer) by lia.
      exists mem, data. repeat split.
      * exact Hpread.
      * rewrite Hfull, skipn_all. apply app_nil_r.
      * rewrite Hfull, skipn_all, app_nil_r. exact Hfull.
    + intros mem' n' err' filled' Hmem Hread' Hshort.
      injection Hmem as <-. rewrite Hread in Hread'.
      injection Hread' as <- <- <-.
      destruct err as [e|]; [injection H as <- _ _; discriminate|].
      destruct (n =? Z.of_nat (List.length buffer)) eqn:Hn.
      * apply Z.eqb_eq in Hn. lia.
      * cbn [negb] in H. injection H as <- _ _. discriminate.
  - split; [intros ->; discriminate | intros mem; discriminate].
Qed.

End Reader.

(** ** The loop of [nextReadableMemoryRegion] *)

Section Readable.

Context {C : Common}.
Variable address : Z.

Lemma nextReadableMemoryRegion_body_malformed (region : MemoryRegion)
  (softerrors : list error) (line : string) :
  limitsOf line = None ->
  exists err,
    nextReadableMemoryRegion_body address (region, softerrors) line
    = Exit (Returns region (Some err) softerrors).
Proof.
  unfold limitsOf, nextReadableMemoryRegion_body. cbv zeta.
  destruct (Nat.eqb _ 6); cbn [negb]; [|eauto].
  destruct (ParseMapsFileMemoryLimits _) as [limits|err]; [discriminate|].
  eauto.
Qed.

Lemma nextReadableMemoryRegion_body_panics (region : MemoryRegion)
  (softerrors : list error) (line : string) :
  considered address line = true ->
  String.get 0 (permsOf line) = None ->
  nextReadableMemoryRegion_body address (region, softerrors) line
  = Exit Panics.
Proof.
  intros Hc Hg. apply considered_entry in Hc as (E & He & Hv).
  now rewrite (nextReadableMemoryRegion_body_entry _ _ _ _ _ _ E), He, Hv, Hg.
Qed.

(** The ways the body goes on to the next record. *)
Lemma nextReadableMemoryRegion_body_next (region : MemoryRegion)
  (softerrors : list error) (line : string) (region' : MemoryRegion)
  (softerrors' : list error) :
  nextReadableMemoryRegion_body address (region, softerrors) line
  = Next (region', softerrors') ->
  (limitsOf line <> None /\ considered address line = false /\
   region' = region /\ softerrors' = softerrors) \/
  (considered address line = true /\ unreadable line = true /\
   Address region = 0 /\ region' = region /\
   softerrors' = List.app softerrors [unreadableError line]) \/
  (considered address line = true /\ readable line = true /\
   Address region = 0 /\
   region' = mkRegion (startOf line) (sizeOf line) NoAccess EmptyString /\
   softerrors' = softerrors) \/
  (considered address line = true /\ readable line = true /\
   Address region <> 0 /\
   wrap (Address region + Size region) = startOf line /\
   region' = mkRegion (Address region) (wrap (Size region + sizeOf line))
               (Access region) (Kind region) /\
   softerrors' = softerrors).
Proof.
  intros H.
  destruct (limitsOf line) as [limits|] eqn:E.
  2:{ destruct (nextReadableMemoryRegion_body_malformed region softerrors
                  line E) as [err Herr]. congruence. }
  assert (Hwf : limitsOf line <> None) by congruence.
  destruct (considered address line) eqn:Hc.
  2:{ rewrite nextReadableMemoryRegion_body_skip in H by assumption.
      injection H as <- <-. left. repeat split; congruence. }
  right.
  destruct (String.get 0 (permsOf line)) as [c|] eqn:Hg.
  2:{ rewrite nextReadableMemoryRegion_body_panics in H by assumption.
      discriminate. }
  destruct (Ascii.eqb c dash) eqn:Hd.
  - assert (Hu : unreadable line = true)
      by (unfold unreadable; now rewrite Hg).
    rewrite nextReadableMemoryRegion_body_unreadable in H by assumption.
    destruct (Address region =? 0) eqn:Ha; cbn [negb] in H; [|discriminate].
    apply Z.eqb_eq in Ha. injection H as <- <-. left.
      repeat split; congruence.
  - assert (Hr : readable line = true)
      by (unfold readable; now rewrite Hg, Hd).
    rewrite nextReadableMemoryRegion_body_readable in H by assumption.
    right.
    destruct (Address region =? 0) eqn:Ha.
    + apply Z.eqb_eq in Ha. injection H as <- <-. left.
      repeat split; congruence.
    + apply Z.eqb_neq in Ha.
      destruct (_ =? startOf line) eqn:Hs; [|discriminate].
      apply Z.eqb_eq in Hs. injection H as <- <-. right.
      repeat split; congruence.
Qed.

(** The ways the body returns. *)
Lemma nextReadableMemoryRegion_body_exit (region : MemoryRegion)
  (softerrors : list error) (line : string) (region' : MemoryRegion)
  (harderror : option error) (softerrors' : list error) :
  nextReadableMemoryRegion_body address (region, softerrors) line
  = Exit (Returns region' harderror softerrors') ->
  region' = region /\ softerrors' = softerrors /\
  ((limitsOf line = None /\ harderror <> None) \/
   (harderror = None /\ Address region <> 0 /\
    considered address line = true /\
    (unreadable line = true \/
     (readable line = true /\
      wrap (Address region + Size region) <> startOf line)))).
Proof.
  intros H.
  destruct (limitsOf line) as [limits|] eqn:E.
  2:{ destruct (nextReadableMemoryRegion_body_malformed region softerrors
                  line E) as [err Herr].
      rewrite Herr in H. injection H as <- <- <-.
      repeat split. left. split; [reflexivity | discriminate]. }
  assert (Hwf : limitsOf line <> None) by congruence.
  destruct (considered address line) eqn:Hc.
  2:{ rewrite nextReadableMemoryRegion_body_skip in H by assumption.
      discriminate. }
  destruct (String.get 0 (permsOf line)) as [c|] eqn:Hg.
  2:{ rewrite nextReadableMemoryRegion_body_panics in H by assumption.
      discriminate. }
  destruct (Ascii.eqb c dash) eqn:Hd.
  - assert (Hu : unreadable line = true)
      by (unfold unreadable; now rewrite Hg).
    rewrite nextReadableMemoryRegion_body_unreadable in H by assumption.
    destruct (Address region =? 0) eqn:Ha; cbn [negb] in H; [discriminate|].
    apply Z.eqb_neq in Ha. injection H as <- <- <-.
    repeat split. right. repeat split; try congruence. now left.
  - assert (Hr : readable line = true)
      by (unfold readable; now rewrite Hg, Hd).
    rewrite nextReadableMemoryRegion_body_readable in H by assumption.
    destruct (Address region =? 0) eqn:Ha; [discriminate|].
    apply Z.eqb_neq in Ha.
    destruct (_ =? startOf line) eqn:Hs; [discriminate|].
    apply Z.eqb_neq in Hs. injection H as <- <- <-.
    repeat split. right. repeat split; try congruence. right.
    split; congruence.
Qed.

(** Records that are passed over can be dropped from the listing. *)
Lemma nextReadableMemoryRegion_scan_considered
  (st : MemoryRegion * list error) (lines : list string) :
  Forall (fun line => limitsOf line <> None) lines ->
  scan (nextReadableMemoryRegion_body address) st lines =
  scan (nextReadableMemoryRegion_body address) st
       (filter (considered address) lines).
Proof.
  intros H. revert st.
  induction H as [|line lines Hwf _ IH]; intros st; [reflexivity|].
  cbn [scan filter]. destruct (considered address line) eqn:Hc.
  - cbn [scan]. destruct (nextReadableMemoryRegion_body address st line);
      [apply IH | reflexivity].
  - rewrite nextReadableMemoryRegion_body_skip by assumption. apply IH.
Qed.

(** While the region's address is zero, unreadable records leave one
    softerror each and readable records at address zero are dropped. *)
Lemma nextReadableMemoryRegion_scan_idle (lines : list string) :
  Forall (fun line => considered address line = true /\
                      (unreadable line = true \/
                       (readable line = true /\ startOf line = 0))) lines ->
  forall region softerrors,
    Address region = 0 ->
    exists region',
      Address region' = 0 /\
      scan (nextReadableMemoryRegion_body address) (region, softerrors) lines
      = Next (region',
              List.app softerrors
                (map unreadableError (filter unreadable lines))).
Proof.
  induction 1 as [|line lines [Hc Hkind] _ IH]; intros region softerrors Ha.
  - exists region. cbn. now rewrite app_nil_r.
  - cbn [scan filter].
    assert (Hzero : (Address region =? 0) = true) by now apply Z.eqb_eq.
    destruct Hkind as [Hu | [Hr Hs]].
    + rewrite nextReadableMemoryRegion_body_unreadable, Hzero by assumption.
      cbn [negb]. rewrite Hu.
      destruct (IH region (List.app softerrors [unreadableError line]) Ha)
        as (region' & Ha' & Hscan).
      exists region'. split; [exact Ha'|].
      rewrite Hscan. cbn [map]. now rewrite <- app_assoc.
    + rewrite nextReadableMemoryRegion_body_readable, Hzero by assumption.
      assert (Hnu : unreadable line = false).
      { unfold readable in Hr. unfold unreadable.
        destruct (String.get 0 (permsOf line)); [|reflexivity].
        now apply negb_true_iff in Hr. }
      rewrite Hnu. apply IH. exact Hs.
Qed.

(** Once the region's address is not zero, readable records that begin
    at its end are added to it. *)
Lemma nextReadableMemoryRegion_scan_extend (more : list string) :
  Forall (fun line => considered address line = true /\
                      readable line = true) more ->
  forall base size access kind softerrors,
    base <> 0 ->
    wrap size = size ->
    chained base size more ->
    scan (nextReadableMemoryRegion_body address)
         (mkRegion base size access kind, softerrors) more
    = Next (mkRegion base (wrap (size + sizesOf more)) access kind,
            softerrors).
Proof.
  induction 1 as [|line more [Hc Hr] _ IH];
    intros base size access kind softerrors Hbase Hsize Hchain.
  - cbn. now rewrite Z.add_0_r, Hsize.
  - destruct Hchain as [Hstart Hchain]. cbn [scan].
    rewrite nextReadableMemoryRegion_body_readable by assumption.
    cbn [Address Size Access Kind].
    apply Z.eqb_neq in Hbase. rewrite Hbase.
    rewrite <- Hstart, Z.eqb_refl.
    rewrite IH; try assumption.
    + cbn [sizesOf fold_right]. fold (sizesOf more). unfold wrap.
      now rewrite Zplus_mod_idemp_l, Z.add_assoc.
    + now apply Z.eqb_neq.
    + unfold wrap. apply Z.mod_mod. discriminate.
Qed.

Lemma filter_all_true {A : Type} (f : A -> bool) (l : list A) :
  Forall (fun x => f x = true) (filter f l).
Proof.
  apply Forall_forall. intros x Hx. now apply filter_In in Hx.
Qed.

(** Which records make the region's address differ from zero. *)
Lemma nextReadableMemoryRegion_scan_began (front : list string) :
  forall region softerrors region' softerrors',
    scan (nextReadableMemoryRegion_body address) (region, softerrors) front
    = Next (region', softerrors') ->
    (Address region' <> 0 <->
     Address region <> 0 \/ Exists (began address) front).
Proof.
  induction front as [|line front IH];
    intros region softerrors region' softerrors'; cbn [scan].
  - intros H. injection H as <- <-. rewrite Exists_nil. tauto.
  - destruct (nextReadableMemoryRegion_body address (region, softerrors) line)
      as [[region1 softerrors1]|o] eqn:Hbody; [|discriminate].
    intros Hscan. rewrite (IH _ _ _ _ Hscan), Exists_cons.
    unfold began at 2.
    apply nextReadableMemoryRegion_body_next in Hbody
      as [(_ & Hc & -> & _)
         |[(_ & Hu & Ha & -> & _)
          |[(Hc & Hr & Ha & -> & _)
           |(_ & _ & Ha & _ & -> & _)]]].
    + rewrite Hc. intuition discriminate.
    + assert (readable line = false).
      { unfold unreadable in Hu. unfold readable.
        destruct (String.get 0 (permsOf line)); [|reflexivity].
        now rewrite Hu. }
      intuition congruence.
    + cbn [Address]. intuition congruence.
    + cbn [Address]. tauto.
Qed.

(** X16.  How [nextReadableMemoryRegion] merges.  Among the records that
    are considered (not the [vsyscall] page, ending above the address),
    let [front] hold unreadable records and readable records that begin
    at address zero, let [first] be a readable record that does not begin
    at address zero, and let each record of [more] be readable and begin
    at the end of the region accumulated so far.  When the next considered
    record is unreadable or is not contiguous, or the listing ends there
    and was read without failure, the call returns, with a nil fatal
    error, the region that begins at [first] and whose size is the sum of
    the sizes of [first] and [more], modulo 2^64; its softerrors are those
    of the unreadable records of [front]. *)
Theorem nextReadableMemoryRegion_merges (fs : FileSystem) (p : Process)
  (mapsFile : File) (seen rest front : list string) (first : string)
  (more : list string) :
  fs (MapsFilePathFromPid (Pid p)) = inl mapsFile ->
  file_lines mapsFile = (seen ++ rest)%list ->
  Forall (fun line => limitsOf line <> None) seen ->
  filter (considered address) seen = (front ++ first :: more)%list ->
  Forall (fun line => unreadable line = true \/
                      (readable line = true /\ startOf line = 0)) front ->
  readable first = true ->
  startOf first <> 0 ->
  Forall (fun line => readable line = true) more ->
  chained (startOf first) (sizeOf first) more ->
  (rest = [] /\ file_scan_err mapsFile = None) \/
  (exists line rest',
      rest = line :: rest' /\ considered address line = true /\
      (unreadable line = true \/
       (readable line = true /\
        startOf line
        <> wrap (startOf first + wrap (sizesOf (first :: more)))))) ->
  nextReadableMemoryRegion fs p address =
  Returns (mkRegion (startOf first) (wrap (sizesOf (first :: more)))
             NoAccess EmptyString)
    None (map unreadableError (filter unreadable front)).
Proof.
  intros Hopen Hlines Hwf Hfilter Hfront Hfirst Hstart Hmore Hchain Hstop.
  pose proof (filter_all_true (considered address) seen) as Hcons.
  rewrite Hfilter in Hcons.
  apply Forall_app in Hcons as [Hcfront Hcrun].
  apply Forall_cons_iff in Hcrun as [Hcfirst Hcmore].
  (* the records before the region *)
  destruct (nextReadableMemoryRegion_scan_idle front) with
    (region := zeroRegion) (softerrors := @nil error)
    as (idle & Hidle & Hscan_front); [|reflexivity|].
  { apply Forall_forall. intros line Hin. split.
    - exact (proj1 (Forall_forall _ _) Hcfront line Hin).
    - exact (proj1 (Forall_forall _ _) Hfront line Hin). }
  cbn [List.app] in Hscan_front.
  (* the records of the region *)
  assert (Hscan_seen :
    scan (nextReadableMemoryRegion_body address) (zeroRegion, []) seen
    = Next (mkRegion (startOf first) (wrap (sizesOf (first :: more)))
              NoAccess EmptyString,
            map unreadableError (filter unreadable front))).
  { rewrite nextReadableMemoryRegion_scan_considered, Hfilter, scan_app,
      Hscan_front by assumption.
    cbn [scan].
    rewrite nextReadableMemoryRegion_body_readable by assumption.
    apply Z.eqb_eq in Hidle. rewrite Hidle.
    apply nextReadableMemoryRegion_scan_extend; try assumption.
    - apply Forall_forall. intros line Hin. split.
      + exact (proj1 (Forall_forall _ _) Hcmore line Hin).
      + exact (proj1 (Forall_forall _ _) Hmore line Hin).
    - unfold sizeOf, wrap. apply Z.mod_mod. discriminate. }
  rewrite (nextReadableMemoryRegion_opened _ _ _ _ Hopen), Hlines, scan_app,
    Hscan_seen.
  destruct Hstop as [[-> Herr] | (line & rest' & -> & Hc & Hkind)].
  - cbn [scan]. rewrite Herr. cbn [Address].
    destruct (considered_entry _ _ Hcfirst) as (E & _ & _).
    destruct (limitsOf_range _ _ _ E) as [[Hlo _] _].
    assert (Hpos : (0 <? startOf first) = true) by (apply Z.ltb_lt; lia).
    now rewrite Hpos.
  - cbn [scan]. apply Z.eqb_neq in Hstart.
    destruct Hkind as [Hu | [Hr Hgap]].
    + rewrite nextReadableMemoryRegion_body_unreadable by assumption.
      cbn [Address]. now rewrite Hstart.
    + rewrite nextReadableMemoryRegion_body_readable by assumption.
      cbn [Address Size]. rewrite Hstart.
      assert (Hne : (wrap (startOf first + wrap (sizesOf (first :: more)))
                     =? startOf line) = false)
        by (apply Z.eqb_neq; congruence).
      now rewrite Hne.
Qed.

(** X17.  What [nextReadableMemoryRegion] does at an unreadable record
    that its loop reaches with region [region] and softerrors
    [softerrors].  The base address of [region] is other than zero
    exactly when a record before it began a region at an address other
    than zero.  When none did, the loop goes on with the same region and
    exactly one more softerror, which names the range of the record; when
    one did, the call returns the accumulated region, a nil fatal error
    and the softerrors unchanged. *)
Theorem unreadable_record_before_and_after (fs : FileSystem) (p : Process)
  (mapsFile : File) (front : list string) (line : string)
  (back : list string) (region : MemoryRegion) (softerrors : list error) :
  fs (MapsFilePathFromPid (Pid p)) = inl mapsFile ->
  file_lines mapsFile = (front ++ line :: back)%list ->
  scan (nextReadableMemoryRegion_body address) (zeroRegion, []) front
  = Next (region, softerrors) ->
  considered address line = true ->
  unreadable line = true ->
  (Address region <> 0 <-> Exists (began address) front) /\
  (~ Exists (began address) front ->
   scan (nextReadableMemoryRegion_body address) (zeroRegion, [])
        (front ++ [line])%list
   = Next (region,
           List.app softerrors ["Unreadable memory " ++ rangeOf line])) /\
  (Exists (began address) front ->
   nextReadableMemoryRegion fs p address = Returns region None softerrors).
Proof.
  intros Hopen Hlines Hfront Hc Hu.
  pose proof (nextReadableMemoryRegion_scan_began _ _ _ _ _ Hfront) as Hiff.
  cbn [Address zeroRegion] in Hiff.
  assert (Hbegan : Address region <> 0 <-> Exists (began address) front)
    by (rewrite Hiff; intuition congruence).
  split; [exact Hbegan|]. split; intros H.
  - rewrite scan_app, Hfront. cbn [scan].
    rewrite nextReadableMemoryRegion_body_unreadable by assumption.
    destruct (Address region =? 0) eqn:Ha; [reflexivity|].
    apply Z.eqb_neq in Ha. tauto.
  - rewrite (nextReadableMemoryRegion_opened _ _ _ _ Hopen), Hlines, scan_app,
      Hfront.
    cbn [scan].
    rewrite nextReadableMemoryRegion_body_unreadable by assumption.
    apply Hbegan, Z.eqb_neq in H. now rewrite H.
Qed.

(** C9.  Whether a region is being accumulated is read off the region's
    base address alone: at a considered record, a region whose address is
    zero is treated as no region, whatever its size.  So when every
    readable record that is considered begins at address zero, the call
    returns "no region available" and each considered unreadable record,
    also one that follows the readable record, leaves a softerror. *)
Theorem zero_base_region_is_lost :
  (forall region softerrors line,
      considered address line = true ->
      (unreadable line = true ->
       nextReadableMemoryRegion_body address (region, softerrors) line
       = if Address region =? 0
         then Next (region, List.app softerrors [unreadableError line])
         else Exit (Returns region None softerrors)) /\
      (readable line = true -> Address region = 0 ->
       nextReadableMemoryRegion_body address (region, softerrors) line
       = Next (mkRegion (startOf line) (sizeOf line) NoAccess EmptyString,
               softerrors))) /\
  (forall (fs : FileSystem) (p : Process) (mapsFile : File),
      fs (MapsFilePathFromPid (Pid p)) = inl mapsFile ->
      Forall (fun line => limitsOf line <> None) (file_lines mapsFile) ->
      Forall (fun line => considered address line = true ->
                          unreadable line = true \/
                          (readable line = true /\ startOf line = 0))
             (file_lines mapsFile) ->
      nextReadableMemoryRegion fs p address =
      Returns NoRegionAvailable (file_scan_err mapsFile)
        (map unreadableError
           (filter unreadable
              (filter (considered address) (file_lines mapsFile))))).
Proof.
  split.
  - intros region softerrors line Hc. split.
    + intros Hu.
      rewrite nextReadableMemoryRegion_body_unreadable by assumption.
      now destruct (Address region =? 0).
    + intros Hr Ha.
      rewrite nextReadableMemoryRegion_body_readable by assumption.
      apply Z.eqb_eq in Ha. now rewrite Ha.
  - intros fs p mapsFile Hopen Hwf Hkind.
    rewrite (nextReadableMemoryRegion_opened _ _ _ _ Hopen).
    rewrite nextReadableMemoryRegion_scan_considered by assumption.
    destruct (nextReadableMemoryRegion_scan_idle
                (filter (considered address) (file_lines mapsFile)))
      with (region := zeroRegion) (softerrors := @nil error)
      as (idle & Hidle & Hscan); [|reflexivity|].
    { apply Forall_forall. intros line Hin.
      apply filter_In in Hin as [Hin Hc]. split; [exact Hc|].
      exact (proj1 (Forall_forall _ _) Hkind line Hin Hc). }
    rewrite Hscan. cbn [List.app]. rewrite Hidle. cbn.
    now destruct (file_scan_err mapsFile).
Qed.

End Readable.

(** ** Successive calls *)

Section Enumeration.

Context {C : Common}.
Variable lines : list string.
Hypothesis lines_entries :
  Forall (fun line => exists start end_,
            limitsOf line = Some (start, end_) /\ start < end_) lines.

Lemma entry_bounds (line : string) :
  In line lines ->
  limitsOf line = Some (startOf line, endOf line) /\
  0 <= startOf line < endOf line /\ endOf line < modulus /\
  sizeOf line = endOf line - startOf line.
Proof.
  intros Hin.
  destruct (proj1 (Forall_forall _ _) lines_entries line Hin)
    as (start & end_ & E & Hlt).
  destruct (limitsOf_range _ _ _ E) as [Hs He].
  destruct (limitsOf_start_end _ _ _ E) as (-> & -> & ->).
  repeat split; try lia; try assumption.
  unfold wrap. apply Z.mod_small. lia.
Qed.

Lemma entry_well_formed (line : string) :
  In line lines -> limitsOf line <> None.
Proof.
  intros Hin. destruct (entry_bounds line Hin) as [E _]. congruence.
Qed.

(** A record that is considered spans itself. *)
Lemma spans_entry (address : Z) (line : string) (access : Z)
  (kind : string) :
  In line lines -> considered address line = true ->
  spans address lines
    (mkRegion (startOf line) (sizeOf line) access kind).
Proof.
  intros Hin Hc. destruct (entry_bounds line Hin) as (_ & _ & _ & Hsize).
  exists line, line. cbn [Address Size]. repeat split; try assumption; lia.
Qed.

(** The loop of [nextReadableMemoryRegion] keeps a region whose address
    is zero or that spans records of the listing. *)
Lemma nextReadableMemoryRegion_scan_spans (address : Z)
  (todo : list string) :
  (forall line, In line todo -> In line lines) ->
  forall region softerrors,
    Address region = 0 \/ spans address lines region ->
    match scan (nextReadableMemoryRegion_body address) (region, softerrors)
               todo with
    | Next (region', _) => Address region' = 0 \/ spans address lines region'
    | Exit (Returns region' _ _) => spans address lines region'
    | Exit Panics => True
    end.
Proof.
  induction todo as [|line todo IH]; intros Hsub region softerrors Hinv.
  - exact Hinv.
  - cbn [scan].
    assert (Hin : In line lines) by (apply Hsub; now left).
    assert (Hsub' : forall l, In l todo -> In l lines)
      by (intros l Hl; apply Hsub; now right).
    destruct (nextReadableMemoryRegion_body address (region, softerrors) line)
      as [[region1 softerrors1]|[region1 harderror softerrors1|]] eqn:Hbody.
    + apply IH; [exact Hsub'|].
      apply nextReadableMemoryRegion_body_next in Hbody
        as [(_ & _ & -> & _)
           |[(_ & _ & _ & -> & _)
            |[(Hc & _ & _ & -> & _)
             |(Hc & _ & Ha & Hcont & -> & _)]]];
        try exact Hinv.
      * right. now apply spans_entry.
      * right. destruct Hinv as [|(x & y & Hx & Hy & Hcx & Hax & Hend & Hs & He)];
          [contradiction|].
        destruct (entry_bounds line Hin) as (_ & Hl & Hlm & Hsize).
        destruct (entry_bounds x Hx) as (_ & Hbx & _ & _).
        destruct (entry_bounds y Hy) as (_ & Hby & Hym & _).
        rewrite Hend in Hcont. unfold wrap in Hcont.
        rewrite Z.mod_small in Hcont by lia.
        exists x, line. cbn [Address Size].
        repeat split; try assumption; try lia.
        rewrite Hsize. unfold wrap. rewrite Z.mod_small; lia.
    + apply nextReadableMemoryRegion_body_exit in Hbody
        as (-> & _ & [[Hmal _] | (_ & Ha & _)]).
      * now apply entry_well_formed in Hin.
      * destruct Hinv; [contradiction | assumption].
    + exact I.
Qed.

(** When [nextMemoryRegion]'s loop returns, it returns a record that is
    considered. *)
Lemma nextMemoryRegion_scan_spans (address : Z) (todo : list string) :
  (forall line, In line todo -> In line lines) ->
  forall st region harderror softerrors,
    scan (nextMemoryRegion_body address) st todo
    = Exit (Returns region harderror softerrors) ->
    spans address lines region.
Proof.
  induction todo as [|line todo IH];
    intros Hsub st region harderror softerrors; cbn [scan].
  - discriminate.
  - assert (Hin : In line lines) by (apply Hsub; now left).
    destruct (entry_bounds line Hin) as (E & _ & _ & Hsize).
    rewrite (nextMemoryRegion_body_entry _ _ _ _ _ E).
    destruct (isVsyscall line) eqn:Hv.
    { apply IH. intros l Hl. apply Hsub. now right. }
    destruct (endOf line <=? address) eqn:Hle.
    { apply IH. intros l Hl. apply Hsub. now right. }
    destruct (accessOf (permsOf line)) as [access|]; [|discriminate].
    intros H. injection H as <- _ _.
    change (wrap (endOf line - startOf line)) with (sizeOf line).
    apply spans_entry; [exact Hin|].
    unfold considered. now rewrite E, Hle, Hv.
Qed.

(** Every region but "no region available" that a call returns spans
    records of the listing. *)
Lemma enumerates_spans (fs : FileSystem) (p : Process) (mapsFile : File)
  (address : Z) (region : MemoryRegion) :
  fs (MapsFilePathFromPid (Pid p)) = inl mapsFile ->
  file_lines mapsFile = lines ->
  enumerates fs p address region ->
  region <> NoRegionAvailable ->
  spans address lines region.
Proof.
  intros Hopen Hlines [(h & s & H) | (h & s & H)] Hregion.
  - rewrite (nextMemoryRegion_opened _ _ _ _ Hopen), Hlines in H.
    destruct (scan _ _ lines) as [[region' softerrors']|o] eqn:Hscan.
    + injection H as <- _ _. contradiction.
    + subst o. eapply nextMemoryRegion_scan_spans; [|exact Hscan]. auto.
  - rewrite (nextReadableMemoryRegion_opened _ _ _ _ Hopen), Hlines in H.
    pose proof (nextReadableMemoryRegion_scan_spans address lines
                  (fun _ Hin => Hin) zeroRegion [] (or_introl eq_refl))
      as Hinv.
    destruct (scan _ _ lines) as [[region' softerrors']|o].
    + destruct (file_scan_err mapsFile).
      * injection H as <- _ _. contradiction.
      * destruct (0 <? Address region') eqn:Hpos.
        -- injection H as <- _ _. apply Z.ltb_lt in Hpos.
           destruct Hinv; [lia | assumption].
        -- injection H as <- _ _. contradiction.
    + subst o. exact Hinv.
Qed.

Hypothesis lines_sorted :
  StronglySorted
    (fun x y => startOf x < startOf y /\
                (endOf x <= startOf y \/ endOf y <= startOf x)) lines.

Lemma sorted_related {A : Type} (R : A -> A -> Prop) (l : list A) :
  StronglySorted R l ->
  forall x y, In x l -> In y l -> x = y \/ R x y \/ R y x.
Proof.
  induction 1 as [|a l Hsorted IH Hall]; intros x y Hx Hy.
  - contradiction.
  - pose proof (proj1 (Forall_forall _ _) Hall) as Ha.
    destruct Hx as [<-|Hx], Hy as [<-|Hy]; auto.
Qed.

(** In an ordered listing, a record that ends below the end of another
    ends at or below its start. *)
Lemma ordered_ends (x y : string) :
  In x lines -> In y lines -> endOf x < endOf y -> endOf x <= startOf y.
Proof.
  intros Hx Hy Hlt.
  destruct (entry_bounds x Hx) as (_ & Hbx & _).
  destruct (entry_bounds y Hy) as (_ & Hby & _).
  destruct (sorted_related _ _ lines_sorted x y Hx Hy) as [->|[H|H]]; lia.
Qed.

Lemma considered_above (address : Z) (line : string) :
  considered address line = true -> address < endOf line.
Proof.
  intros Hc. apply considered_entry in Hc as (_ & Hle & _).
  now apply Z.leb_gt in Hle.
Qed.

Lemma enumeration_increasing (fs : FileSystem) (p : Process)
  (mapsFile : File) :
  fs (MapsFilePathFromPid (Pid p)) = inl mapsFile ->
  file_lines mapsFile = lines ->
  forall regions address,
    enumeration fs p address regions ->
    StronglySorted
      (fun r r' => Address r < Address r' /\
                   Address r + Size r <= Address r') regions /\
    Forall (fun r => exists x, In x lines /\ address < endOf x /\
                               Address r = startOf x) regions.
Proof.
  intros Hopen Hlines.
  induction regions as [|region rest IH]; intros address Henum.
  - split; constructor.
  - destruct Henum as (Hcall & Hregion & Hrest).
    destruct (enumerates_spans _ _ _ _ _ Hopen Hlines Hcall Hregion)
      as (x & y & Hx & Hy & Hcx & Hax & Hend & Hs & He).
    apply considered_above in Hcx.
    destruct (entry_bounds y Hy) as (_ & Hby & Hym & _).
    destruct (entry_bounds x Hx) as (_ & Hbx & _ & _).
    rewrite Hend in Hrest. unfold wrap in Hrest.
    rewrite Z.mod_small in Hrest by lia.
    destruct (IH _ Hrest) as [Hsorted Hfrom].
    split.
    + constructor; [exact Hsorted|].
      eapply Forall_impl; [|exact Hfrom]. cbv beta.
      intros r' (x' & Hx' & Habove & Hax').
      pose proof (ordered_ends y x' Hy Hx' Habove). lia.
    + constructor.
      * exists x. auto.
      * eapply Forall_impl; [|exact Hfrom]. cbv beta.
        intros r' (x' & Hx' & Habove & Hax').
        exists x'. repeat split; try assumption. lia.
Qed.

End Enumeration.

Section Ordered.
Context {C : Common}.

Lemma StronglySorted_weaken {A : Type} (R R' : A -> A -> Prop)
  (l : list A) :
  (forall x y, R x y -> R' x y) ->
  StronglySorted R l -> StronglySorted R' l.
Proof.
  intros Himpl. induction 1 as [|a l _ IH Hall]; constructor.
  - exact IH.
  - eapply Forall_impl; [|exact Hall]. auto.
Qed.

(** C5.  On a listing sorted by strictly increasing start address whose
    records are pairwise disjoint, successive calls of the enumerators,
    each at the end address of the region returned before, return regions
    whose base addresses increase strictly and whose half-open intervals
    are pairwise disjoint. *)
Theorem enumeration_increasing_and_disjoint (fs : FileSystem) (p : Process)
  (mapsFile : File) (address : Z) (regions : list MemoryRegion) :
  fs (MapsFilePathFromPid (Pid p)) = inl mapsFile ->
  orderedListing (file_lines mapsFile) ->
  enumeration fs p address regions ->
  StronglySorted (fun r r' => Address r < Address r' /\ apart r r') regions.
Proof.
  intros Hopen [Hentries Hsorted] Henum.
  destruct (enumeration_increasing (file_lines mapsFile) Hentries Hsorted
              fs p mapsFile Hopen eq_refl regions address Henum)
    as [Hincreasing _].
  eapply StronglySorted_weaken; [|exact Hincreasing]. cbv beta.
  intros r r' [Hlt Hle]. split; [exact Hlt|].
  unfold apart. intros z. lia.
Qed.

End Ordered.

(** ** The enumerators on sample listings *)

Import Sample.

(** Goals about each record of a listing written out. *)
Ltac each_record :=
  unfold fileOf; cbn [file_lines];
  repeat match goal with
         | |- Forall _ (_ :: _) => apply Forall_cons
         | |- Forall _ [] => apply Forall_nil
         | |- StronglySorted _ (_ :: _) => apply SSorted_cons
         | |- StronglySorted _ [] => apply SSorted_nil
         end.

(** The second record of the listing is not a record; the first ends at
    the address and is passed over. *)
Lemma malformed_record_is_fatal_witness :
  nextMemoryRegion (procOf 4242 [text; garbage; heap] None) self 4530176
  = Returns zeroRegion (Some "Unrecognised maps line: garbage") [] /\
  nextReadableMemoryRegion (procOf 4242 [text; garbage; heap] None) self 4530176
  = Returns zeroRegion (Some "Unrecognised maps line: garbage") [].
Proof.
  destruct (malformed_record_is_fatal
              (procOf 4242 [text; garbage; heap] None) self 4530176
              (fileOf [text; garbage; heap] None) [text] garbage [heap])
    as [Hregion Hreadable].
  - reflexivity.
  - reflexivity.
  - vm_compute. lia.
  - split; [apply Hregion | apply Hreadable]; reflexivity.
Defined.

(** C3, counterexample.  At address 0x452000 the first record whose end is
    above the address is the [vsyscall] page, and [nextMemoryRegion]
    returns "no region available", not that record. *)
Lemma nextMemoryRegion_passes_over_vsyscall :
  limitsOf text = Some (4194304, 4530176) /\
  limitsOf vsyscall = Some (18446744073699065856, 18446744073699069952) /\
  4530176 < 18446744073699069952 /\
  nextMemoryRegion (procOf 4242 [text; vsyscall] None) self 4530176
  = Returns NoRegionAvailable None [] /\
  Address NoRegionAvailable <> startOf vsyscall.
Proof. repeat split. vm_compute. discriminate. Qed.

(** The first record ends at the address; the second is returned with
    its read bit and its path. *)
Lemma nextMemoryRegion_first_entry_witness :
  nextMemoryRegion (procOf 4242 [text; rodata; heap] None) self 4530176
  = Returns (mkRegion 4530176 4096 Readable "/usr/bin/dbus-daemon") None [].
Proof.
  change (mkRegion 4530176 4096 Readable "/usr/bin/dbus-daemon")
    with (mkRegion 4530176 (wrap (4534272 - 4530176)) Readable
            (kindOf rodata)).
  apply (nextMemoryRegion_first_entry
           (procOf 4242 [text; rodata; heap] None) self 4530176
           (fileOf [text; rodata; heap] None) [text] rodata [heap]
           4530176 4534272 Readable).
  - reflexivity.
  - reflexivity.
  - constructor; [|constructor].
    exists 4194304, 4530176. split; [reflexivity | left; lia].
  - reflexivity.
  - reflexivity.
  - lia.
  - reflexivity.
Defined.

(** C8, counterexample.  The listing holds one record, the [vsyscall]
    page; both enumerators skip it and return an empty softerror list. *)
Lemma vsyscall_skip_records_no_softerror :
  isVsyscall vsyscall = true /\
  nextMemoryRegion (procOf 4242 [vsyscall] None) self 0
  = Returns NoRegionAvailable None [] /\
  nextReadableMemoryRegion (procOf 4242 [vsyscall] None) self 0
  = Returns NoRegionAvailable None [].
Proof. repeat split. Qed.

(** The listing with and without its [vsyscall] record. *)
Lemma vsyscall_skipped_silently_witness :
  nextMemoryRegion (procOf 4242 [text; vsyscall] None) self 0
  = nextMemoryRegion (procOf 4242 [text] None) self 0 /\
  nextReadableMemoryRegion (procOf 4242 [text; vsyscall] None) self 0
  = nextReadableMemoryRegion (procOf 4242 [text] None) self 0.
Proof.
  apply (vsyscall_skipped_silently
           (procOf 4242 [text; vsyscall] None) (procOf 4242 [text] None)
           self 0 (fileOf [text; vsyscall] None) (fileOf [text] None)
           [text] vsyscall []); try reflexivity.
  vm_compute. discriminate.
Defined.

(** C4.  The scanner stops on a read failure after a record that ends at
    the address.  [nextReadableMemoryRegion] returns the failure as the
    fatal error; [nextMemoryRegion] returns "no region available" with a
    nil fatal error. *)
Theorem nextMemoryRegion_loses_scan_failure :
  nextMemoryRegion (procOf 4242 [text] (Some EIO)) self 4530176
  = Returns NoRegionAvailable None [] /\
  nextReadableMemoryRegion (procOf 4242 [text] (Some EIO)) self 4530176
  = Returns NoRegionAvailable (Some EIO) [].
Proof. split; reflexivity. Qed.

(** The region merged from the first two records carries neither their
    permissions nor their path. *)
Lemma nextReadableMemoryRegion_bare_region_witness :
  Access (mkRegion 4194304 339968 NoAccess EmptyString) = NoAccess /\
  Kind (mkRegion 4194304 339968 NoAccess EmptyString) = EmptyString /\
  Z.testbit (Access (mkRegion 4194304 339968 NoAccess EmptyString)) 0 = false /\
  Z.testbit (Access (mkRegion 4194304 339968 NoAccess EmptyString)) 1 = false /\
  Z.testbit (Access (mkRegion 4194304 339968 NoAccess EmptyString)) 2 = false.
Proof.
  destruct (nextReadableMemoryRegion_bare_region
              (procOf 4242 [text; rodata; guard; heap] None) self 0)
    as [Hreadable _].
  apply (Hreadable _ None []). reflexivity.
Defined.

(** Two bytes read one byte into a mapping of four. *)
Lemma copyMemory_exact_fill_witness :
  exists mem data,
    memoryOf 4242 4096 [Byte.x01; Byte.x02; Byte.x03; Byte.x04]
      (MemFilePathFromPid (Pid self)) = inl mem /\
    file_pread mem 2 (int64 4097) = (data, None) /\
    [Byte.x02; Byte.x03] = firstn 2 data /\
    List.length [Byte.x02; Byte.x03] = 2%nat.
Proof.
  destruct (copyMemory_exact_fill
              (memoryOf 4242 4096 [Byte.x01; Byte.x02; Byte.x03; Byte.x04])
              self 4097 [Byte.x00; Byte.x00] None [] [Byte.x02; Byte.x03])
    as [Hfilled _].
  - reflexivity.
  - apply Hfilled. reflexivity.
Defined.

(** C1.  [nextReadableMemoryRegion] at address 0 on a listing of two
    readable records, the first mapped at address zero and the second
    beginning where the first ends.  The loop stores the first record as
    the beginning of a region, and at the second record takes the base
    address zero of that region for the sign that no region has begun:
    the region returned begins at the second record and has the size of
    the second record alone, where the merge of the two begins at
    address zero and has the sum of the two sizes. *)
Lemma nextReadableMemoryRegion_restarts_after_zero_base :
  considered 0 lowpage = true /\ readable lowpage = true /\
  startOf lowpage = 0 /\ sizeOf lowpage = 4096 /\
  considered 0 lowdata = true /\ readable lowdata = true /\
  startOf lowdata = startOf lowpage + sizeOf lowpage /\
  sizeOf lowdata = 4096 /\
  nextReadableMemoryRegion (procOf 4242 [lowpage; lowdata] None) self 0
  = Returns (mkRegion 4096 4096 NoAccess EmptyString) None [] /\
  4096 <> startOf lowpage /\
  4096 <> sizeOf lowpage + sizeOf lowdata.
Proof. repeat split; vm_compute; discriminate. Qed.

(** An unreadable record, two contiguous readable ones, and an unreadable
    record that ends the region. *)
Lemma nextReadableMemoryRegion_merges_witness :
  nextReadableMemoryRegion
    (procOf 4242 [guard; text; rodata; guard; heap] None) self 0
  = Returns (mkRegion 4194304 339968 NoAccess EmptyString) None
      ["Unreadable memory 00453000-00454000"].
Proof.
  change (mkRegion 4194304 339968 NoAccess EmptyString)
    with (mkRegion (startOf text) (wrap (sizesOf [text; rodata]))
            NoAccess EmptyString).
  change ["Unreadable memory 00453000-00454000"]
    with (map unreadableError (filter unreadable [guard])).
  apply (nextReadableMemoryRegion_merges 0
           (procOf 4242 [guard; text; rodata; guard; heap] None) self
           (fileOf [guard; text; rodata; guard; heap] None)
           [guard; text; rodata] [guard; heap] [guard] text [rodata]).
  - reflexivity.
  - reflexivity.
  - each_record; vm_compute; discriminate.
  - reflexivity.
  - each_record. now left.
  - reflexivity.
  - vm_compute. discriminate.
  - each_record. reflexivity.
  - split; [reflexivity | exact I].
  - right. exists guard, [heap]. repeat split. now left.
Defined.

(** C2.  [nextReadableMemoryRegion] at address 0 on a listing of a
    readable record mapped at address zero and an unreadable record after
    it.  The loop has stored the readable record as the beginning of a
    region when it reaches the unreadable one, and takes the base address
    zero of that region for the sign that no region has begun: it records
    a softerror for the unreadable record and goes on, and at the end of
    the listing the call returns the sentinel and not the region it had
    accumulated. *)
Lemma unreadable_record_after_zero_base :
  considered 0 lowpage = true /\ readable lowpage = true /\
  considered 0 lowguard = true /\ unreadable lowguard = true /\
  scan (nextReadableMemoryRegion_body 0) (zeroRegion, []) [lowpage]
  = Next (mkRegion 0 4096 NoAccess EmptyString, []) /\
  nextReadableMemoryRegion (procOf 4242 [lowpage; lowguard] None) self 0
  = Returns NoRegionAvailable None ["Unreadable memory 00001000-00002000"].
Proof. repeat split. Qed.

(** An unreadable record after another unreadable one, before any region
    has begun; and an unreadable record after two readable ones, which
    ends their region. *)
Lemma unreadable_record_before_and_after_witness :
  scan (nextReadableMemoryRegion_body 0) (zeroRegion, [])
       ([lowguard] ++ [guard])%list
  = Next (zeroRegion,
          List.app ["Unreadable memory 00001000-00002000"]
            ["Unreadable memory " ++ rangeOf guard]) /\
  nextReadableMemoryRegion (procOf 4242 [text; rodata; guard; heap] None)
    self 0
  = Returns (mkRegion 4194304 339968 NoAccess EmptyString) None [].
Proof.
  split.
  - destruct (unreadable_record_before_and_after 0
                (procOf 4242 [lowguard; guard; heap] None) self
                (fileOf [lowguard; guard; heap] None)
                [lowguard] guard [heap]
                zeroRegion ["Unreadable memory 00001000-00002000"])
      as (Hbegan & Hbefore & _); [reflexivity .. | ].
    apply Hbefore. intros Hsome. apply Hbegan in Hsome.
    apply Hsome. reflexivity.
  - destruct (unreadable_record_before_and_after 0
                (procOf 4242 [text; rodata; guard; heap] None) self
                (fileOf [text; rodata; guard; heap] None)
                [text; rodata] guard [heap]
                (mkRegion 4194304 339968 NoAccess EmptyString) [])
      as (Hbegan & _ & Hafter); [reflexivity .. | ].
    apply Hafter. apply Hbegan. cbn [Address]. discriminate.
Defined.

(** A readable page at address zero, then an unreadable one. *)
Lemma zero_base_region_is_lost_witness :
  nextReadableMemoryRegion (procOf 4242 [lowpage; lowguard] None) self 0
  = Returns NoRegionAvailable None ["Unreadable memory 00001000-00002000"].
Proof.
  destruct (zero_base_region_is_lost 0) as [_ Hlost].
  change ["Unreadable memory 00001000-00002000"]
    with (map unreadableError
            (filter unreadable (filter (considered 0) [lowpage; lowguard]))).
  apply (Hlost (procOf 4242 [lowpage; lowguard] None) self
           (fileOf [lowpage; lowguard] None)).
  - reflexivity.
  - each_record; vm_compute; discriminate.
  - each_record; intros _; [right; split; reflexivity | left; reflexivity].
Defined.

(** Three calls, the third with [nextMemoryRegion]. *)
Lemma enumeration_increasing_and_disjoint_witness :
  StronglySorted (fun r r' => Address r < Address r' /\ apart r r')
    [mkRegion 4194304 339968 NoAccess EmptyString;
     mkRegion 14692352 135168 NoAccess EmptyString;
     mkRegion 140725613170688 135168 (Readable + Writable) "[stack]"].
Proof.
  apply (enumeration_increasing_and_disjoint
           (procOf 4242 [text; rodata; guard; heap; stack; vsyscall] None)
           self (fileOf [text; rodata; guard; heap; stack; vsyscall] None) 0).
  - reflexivity.
  - split.
    + each_record;
        match goal with
        | |- exists _ _, limitsOf ?l = _ /\ _ =>
            let v := eval vm_compute in (limitsOf l) in
            match v with
            | Some (?a, ?b) => exists a, b; split; [reflexivity | lia]
            end
        end.
    + each_record; vm_compute; (split; [reflexivity | left; discriminate]).
  - cbn [enumeration]. repeat split.
    + right. exists None, []. reflexivity.
    + discriminate.
    + right. exists None, ["Unreadable memory 00453000-00454000"].
      reflexivity.
    + discriminate.
    + left. exists None, []. reflexivity.
    + discriminate.
Defined.

(** * Further properties *)

(** ** More on the enumerators *)

Section EnumeratorFacts.

Context {C : Common}.

Lemma nextMemoryRegion_scan_exit_state (address : Z) (lines : list string)
  (st : MemoryRegion * list error) (region : MemoryRegion)
  (harderror : option error) (softerrors : list error) :
  scan (nextMemoryRegion_body address) st lines
  = Exit (Returns region harderror softerrors) ->
  softerrors = snd st /\ (harderror <> None -> region = fst st).
Proof.
  revert st; induction lines as [|line lines IH]; intros st; cbn [scan].
  - discriminate.
  - destruct (nextMemoryRegion_body address st line) as [st'|o] eqn:E.
    + assert (st' = st) as ->; [|apply IH].
      apply (nextMemoryRegion_scan_next address st st' [line]).
      cbn [scan]. now rewrite E.
    + intros H. injection H as ->.
      unfold nextMemoryRegion_body in E. destruct st as [r0 s0].
      cbv zeta in E.
      destruct (negb _).
      { injection E as <- <- <-. split; auto. }
      destruct (ParseMapsFileMemoryLimits _) as [[start end_]|err].
      2:{ injection E as <- <- <-. split; auto. }
      destruct (String.eqb _ _); [discriminate|].
      destruct (end_ <=? address); [discriminate|].
      destruct (accessOf _); [|discriminate].
      injection E as <- <- <-. split; [reflexivity | congruence].
Qed.

(** X1.  [nextMemoryRegion] never returns a softerror, and the region it
    returns beside a fatal error is the zero region. *)
Theorem nextMemoryRegion_no_softerrors (fs : FileSystem) (p : Process)
  (address : Z) (region : MemoryRegion) (harderror : option error)
  (softerrors : list error) :
  nextMemoryRegion fs p address = Returns region harderror softerrors ->
  softerrors = [] /\ (harderror <> None -> region = zeroRegion).
Proof.
  unfold nextMemoryRegion.
  destruct (fs _) as [mapsFile|err].
  - destruct (scan _ _ _) as [[region' softerrors']|o] eqn:Hscan.
    + apply nextMemoryRegion_scan_next in Hscan.
      injection Hscan as -> ->. intros H. injection H as <- <- <-.
      split; [reflexivity | congruence].
    + intros ->. apply nextMemoryRegion_scan_exit_state in Hscan.
      exact Hscan.
  - intros H. injection H as <- <- <-. split; reflexivity.
Qed.

(** X2.  Past the last mapping: when every record is well formed and is
    the [vsyscall] page or ends at or below the address, both enumerators
    return "no region available" and no softerror; the fatal error is nil
    for [nextMemoryRegion] and the scanner's error, if any, for
    [nextReadableMemoryRegion]. *)
Theorem enumerators_past_the_end (fs : FileSystem) (p : Process)
  (address : Z) (mapsFile : File) :
  fs (MapsFilePathFromPid (Pid p)) = inl mapsFile ->
  Forall (fun line => exists start end_,
            limitsOf line = Some (start, end_) /\
            (end_ <= address \/ isVsyscall line = true))
         (file_lines mapsFile) ->
  nextMemoryRegion fs p address = Returns NoRegionAvailable None [] /\
  nextReadableMemoryRegion fs p address
  = Returns NoRegionAvailable (file_scan_err mapsFile) [].
Proof.
  intros Hopen Hall. split.
  - rewrite (nextMemoryRegion_opened _ _ _ _ Hopen).
    now rewrite (nextMemoryRegion_scan_skip _ _ _ Hall).
  - rewrite (nextReadableMemoryRegion_opened _ _ _ _ Hopen).
    rewrite scan_all_next.
    + cbn. now destruct (file_scan_err mapsFile).
    + eapply Forall_impl; [|exact Hall]. cbv beta.
      intros line (start & end_ & E & Hskip).
      apply nextReadableMemoryRegion_body_skip; [congruence|].
      unfold considered. rewrite E.
      destruct Hskip as [Hle | Hv].
      * apply Z.leb_le in Hle. now rewrite Hle.
      * rewrite Hv. apply andb_false_r.
Qed.

(** X3.  On a listing whose records are non-empty intervals, a region
    other than "no region available" that either enumerator returns has a
    positive size, ends above the address it was asked for and below
    2^64; its base address may lie below the address. *)
Theorem returned_region_is_valid (fs : FileSystem) (p : Process)
  (address : Z) (mapsFile : File) (region : MemoryRegion) :
  fs (MapsFilePathFromPid (Pid p)) = inl mapsFile ->
  Forall (fun line => exists start end_,
            limitsOf line = Some (start, end_) /\ start < end_)
         (file_lines mapsFile) ->
  enumerates fs p address region ->
  region <> NoRegionAvailable ->
  0 <= Address region /\ 0 < Size region /\
  address < Address region + Size region < modulus.
Proof.
  intros Hopen Hentries Hcall Hregion.
  destruct (enumerates_spans (file_lines mapsFile) Hentries fs p mapsFile
              address region Hopen eq_refl Hcall Hregion)
    as (x & y & Hx & Hy & Hcx & Hax & Hend & Hs & He).
  destruct (entry_bounds _ Hentries x Hx) as (_ & Hbx & _ & _).
  destruct (entry_bounds _ Hentries y Hy) as (_ & Hby & Hym & _).
  apply considered_above in Hcx. lia.
Qed.

(** The softerrors of [nextReadableMemoryRegion]'s loop: those it began
    with, then the errors of unreadable considered records, in order and
    without a gap. *)
Lemma nextReadableMemoryRegion_scan_softerrors (address : Z)
  (lines : list string) :
  forall region softerrors region' harderror softerrors',
    scan (nextReadableMemoryRegion_body address) (region, softerrors) lines
    = Next (region', softerrors') \/
    scan (nextReadableMemoryRegion_body address) (region, softerrors) lines
    = Exit (Returns region' harderror softerrors') ->
    exists rest,
      List.app softerrors
        (map unreadableError
           (filter (fun line => considered address line && unreadable line)
              lines))
      = List.app softerrors' rest.
Proof.
  induction lines as [|line lines IH];
    intros region softerrors region' harderror softerrors'; cbn [scan].
  - intros [H|H]; [|discriminate]. injection H as <- <-. now exists [].
  - destruct (nextReadableMemoryRegion_body address (region, softerrors) line)
      as [[region1 softerrors1]|o] eqn:Hbody.
    + intros H. apply IH in H as [rest Hrest]. exists rest.
      rewrite <- Hrest. cbn [filter].
      apply nextReadableMemoryRegion_body_next in Hbody
        as [(_ & Hc & _ & ->)
           |[(Hc & Hu & _ & _ & ->)
            |[(Hc & Hr & _ & _ & ->)
             |(Hc & Hr & _ & _ & _ & ->)]]].
      * now rewrite Hc.
      * rewrite Hc, Hu. cbn [andb map]. now rewrite <- app_assoc.
      * assert (unreadable line = false) as ->; [|now rewrite andb_false_r].
        unfold readable in Hr. unfold unreadable.
        destruct (String.get 0 (permsOf line)); [|reflexivity].
        now apply negb_true_iff in Hr.
      * assert (unreadable line = false) as ->; [|now rewrite andb_false_r].
        unfold readable in Hr. unfold unreadable.
        destruct (String.get 0 (permsOf line)); [|reflexivity].
        now apply negb_true_iff in Hr.
    + intros [H|H]; [discriminate|]. injection H as ->.
      apply nextReadableMemoryRegion_body_exit in Hbody as (_ & -> & _).
      eauto.
Qed.

(** X5.  The softerrors [nextReadableMemoryRegion] returns are the
    "Unreadable memory" errors of unreadable records that are considered,
    in the order of the listing, starting with the first such record and
    leaving none out up to the last one reported. *)
Theorem nextReadableMemoryRegion_softerrors (fs : FileSystem) (p : Process)
  (address : Z) (mapsFile : File) (region : MemoryRegion)
  (harderror : option error) (softerrors : list error) :
  fs (MapsFilePathFromPid (Pid p)) = inl mapsFile ->
  nextReadableMemoryRegion fs p address
  = Returns region harderror softerrors ->
  exists rest,
    map unreadableError
      (filter (fun line => considered address line && unreadable line)
         (file_lines mapsFile))
    = List.app softerrors rest.
Proof.
  intros Hopen. rewrite (nextReadableMemoryRegion_opened _ _ _ _ Hopen).
  destruct (scan _ _ _) as [[region' softerrors']|o] eqn:Hscan.
  - intros H.
    assert (softerrors' = softerrors) as ->.
    { destruct (file_scan_err mapsFile); [congruence|].
      destruct (0 <? Address region'); congruence. }
    apply (nextReadableMemoryRegion_scan_softerrors address
             (file_lines mapsFile) zeroRegion [] region' None softerrors).
    now left.
  - intros ->.
    apply (nextReadableMemoryRegion_scan_softerrors address
             (file_lines mapsFile) zeroRegion [] region harderror softerrors).
    now right.
Qed.

Lemma get_in_range (s : string) (n : nat) :
  (n < String.length s)%nat -> String.get n s <> None.
Proof.
  revert n; induction s as [|c s IH]; intros n; cbn.
  - lia.
  - destruct n as [|n]; [discriminate|]. intros H. apply IH. lia.
Qed.

(** X6.  Neither enumerator indexes a permission string out of range
    when the permission field of every record is long enough: three
    characters for [nextMemoryRegion], one for
    [nextReadableMemoryRegion]. *)
Theorem enumerators_do_not_panic (fs : FileSystem) (p : Process)
  (address : Z) :
  ((forall mapsFile,
       fs (MapsFilePathFromPid (Pid p)) = inl mapsFile ->
       Forall (fun line => (3 <= String.length (permsOf line))%nat)
              (file_lines mapsFile)) ->
   nextMemoryRegion fs p address <> Panics) /\
  ((forall mapsFile,
       fs (MapsFilePathFromPid (Pid p)) = inl mapsFile ->
       Forall (fun line => (1 <= String.length (permsOf line))%nat)
              (file_lines mapsFile)) ->
   nextReadableMemoryRegion fs p address <> Panics).
Proof.
  split; intros Hperms.
  - unfold nextMemoryRegion.
    destruct (fs _) as [mapsFile|err] eqn:Hopen; [|discriminate].
    specialize (Hperms mapsFile eq_refl).
    generalize (zeroRegion, @nil error).
    induction Hperms as [|line lines Hlen _ IH]; intros st; cbn [scan].
    + destruct st. discriminate.
    + destruct (nextMemoryRegion_body address st line) as [st'|o] eqn:E;
        [apply IH|].
      intros ->. unfold nextMemoryRegion_body in E. destruct st as [r0 s0].
      cbv zeta in E.
      destruct (negb _); [discriminate|].
      destruct (ParseMapsFileMemoryLimits _) as [[start end_]|];
        [|discriminate].
      destruct (String.eqb _ _); [discriminate|].
      destruct (end_ <=? address); [discriminate|].
      fold (permsOf line) in E. unfold accessOf in E.
      destruct (String.get 0 (permsOf line)) eqn:G0;
        [|apply get_in_range in G0; [assumption | lia]].
      destruct (String.get 1 (permsOf line)) eqn:G1;
        [|apply get_in_range in G1; [assumption | lia]].
      destruct (String.get 2 (permsOf line)) eqn:G2;
        [|apply get_in_range in G2; [assumption | lia]].
      discriminate.
  - unfold nextReadableMemoryRegion.
    destruct (fs _) as [mapsFile|err] eqn:Hopen; [|discriminate].
    specialize (Hperms mapsFile eq_refl).
    generalize (file_scan_err mapsFile). intros scan_err.
    generalize (zeroRegion, @nil error).
    induction Hperms as [|line lines Hlen _ IH]; intros st; cbn [scan].
    + destruct st as [r0 s0]. destruct scan_err; [discriminate|].
      destruct (0 <? Address r0); discriminate.
    + destruct (nextReadableMemoryRegion_body address st line)
        as [st'|o] eqn:E; [apply IH|].
      intros ->. unfold nextReadableMemoryRegion_body in E.
      destruct st as [r0 s0]. cbv zeta in E.
      destruct (negb _); [discriminate|].
      destruct (ParseMapsFileMemoryLimits _) as [[start end_]|];
        [|discriminate].
      destruct (end_ <=? address); [discriminate|].
      destruct (String.eqb _ _); [discriminate|].
      fold (permsOf line) in E.
      destruct (String.get 0 (permsOf line)) as [c|] eqn:G0;
        [|apply get_in_range in G0; [assumption | lia]].
      destruct (Ascii.eqb c dash).
      * destruct (negb _); discriminate.
      * destruct (Address r0 =? 0); [discriminate|].
        destruct (_ =? start); discriminate.
Qed.

(** On a listing whose records are non-empty intervals, the region
    [nextReadableMemoryRegion]'s loop holds is made of readable records
    only. *)
Lemma nextReadableMemoryRegion_scan_covered (address : Z)
  (lines todo : list string) :
  Forall (fun line => exists start end_,
            limitsOf line = Some (start, end_) /\ start < end_) lines ->
  (forall line, In line todo -> In line lines) ->
  let made r :=
    Address r = 0 \/
    (0 < Address r /\ 0 <= Size r /\
     Address r + Size r < modulus /\
     forall z, Address r <= z < Address r + Size r ->
               exists line,
                 In line lines /\ considered address line = true /\
                 readable line = true /\ startOf line <= z < endOf line) in
  forall region softerrors,
    made region ->
    match scan (nextReadableMemoryRegion_body address) (region, softerrors)
               todo with
    | Next (region', _) => made region'
    | Exit (Returns region' _ _) => made region'
    | Exit Panics => True
    end.
Proof.
  intros Hentries Hsub made.
  induction todo as [|line todo IH]; intros region softerrors Hmade.
  - exact Hmade.
  - cbn [scan].
    assert (Hin : In line lines) by (apply Hsub; now left).
    assert (Hsub' : forall l, In l todo -> In l lines)
      by (intros l Hl; apply Hsub; now right).
    destruct (entry_bounds _ Hentries line Hin) as (_ & Hl & Hlm & Hsize).
    destruct (nextReadableMemoryRegion_body address (region, softerrors) line)
      as [[region1 softerrors1]|[region1 harderror softerrors1|]] eqn:Hbody.
    + apply (IH Hsub').
      apply nextReadableMemoryRegion_body_next in Hbody
        as [(_ & _ & -> & _)
           |[(_ & _ & _ & -> & _)
            |[(Hc & Hr & _ & -> & _)
             |(Hc & Hr & Ha & Hcont & -> & _)]]];
        try exact Hmade.
      * unfold made. cbn [Address Size].
        destruct (Z.eq_dec (startOf line) 0) as [Hz|Hz]; [now left|].
        right. repeat split; try lia.
        intros z Hzr. exists line. repeat split; try assumption; lia.
      * destruct Hmade as [|(Hpos & Hsz & Hend & Hcov)]; [contradiction|].
        unfold wrap in Hcont. rewrite Z.mod_small in Hcont by lia.
        right. cbn [Address Size]. rewrite Hsize.
        unfold wrap. rewrite Z.mod_small by lia.
        repeat split; try lia.
        intros z Hzr.
        destruct (Z_lt_ge_dec z (Address region + Size region)) as [Hlow|Hhigh].
        -- apply Hcov. lia.
        -- exists line. repeat split; try assumption; lia.
    + apply nextReadableMemoryRegion_body_exit in Hbody as (-> & _).
      exact Hmade.
    + exact I.
Qed.

(** X4.  On a listing whose records are non-empty intervals, every
    address of a region that [nextReadableMemoryRegion] returns lies in a
    readable record of the listing that ends above the address asked
    for: no unreadable or unmapped address is inside the region. *)
Theorem readable_region_is_readable (fs : FileSystem) (p : Process)
  (address : Z) (mapsFile : File) (region : MemoryRegion)
  (harderror : option error) (softerrors : list error) :
  fs (MapsFilePathFromPid (Pid p)) = inl mapsFile ->
  Forall (fun line => exists start end_,
            limitsOf line = Some (start, end_) /\ start < end_)
         (file_lines mapsFile) ->
  nextReadableMemoryRegion fs p address
  = Returns region harderror softerrors ->
  forall z,
    Address region <= z < Address region + Size region ->
    exists line,
      In line (file_lines mapsFile) /\ readable line = true /\
      isVsyscall line = false /\ address < endOf line /\
      startOf line <= z < endOf line.
Proof.
  intros Hopen Hentries H z Hz.
  assert (Hmade :
    Address region = 0 /\ Size region = 0 \/
    (forall z, Address region <= z < Address region + Size region ->
               exists line,
                 In line (file_lines mapsFile) /\
                 considered address line = true /\
                 readable line = true /\ startOf line <= z < endOf line)).
  { rewrite (nextReadableMemoryRegion_opened _ _ _ _ Hopen) in H.
    pose proof (nextReadableMemoryRegion_scan_covered address
                  (file_lines mapsFile) (file_lines mapsFile) Hentries
                  (fun _ Hin => Hin) zeroRegion [] (or_introl eq_refl))
      as Hscan.
    destruct (scan _ _ _) as [[region' softerrors']|o] eqn:Escan.
    - destruct (file_scan_err mapsFile).
      + injection H as <- _ _. now left.
      + destruct (0 <? Address region') eqn:Hpos.
        * injection H as <- _ _. apply Z.ltb_lt in Hpos.
          destruct Hscan as [|(_ & _ & _ & Hcov)]; [lia | now right].
        * injection H as <- _ _. now left.
    - subst o.
      (* the loop returns only a region whose address is not zero *)
      assert (Hnz : Address region <> 0).
      { clear Hscan. revert Escan. generalize (zeroRegion, @nil error).
        induction (file_lines mapsFile) as [|line lines IH] in Hentries |- *;
          intros st; cbn [scan]; [discriminate|].
        apply Forall_cons_iff in Hentries as [(s & e & E & _) Hentries].
        destruct (nextReadableMemoryRegion_body address st line)
          as [st'|o] eqn:Hbody; [now apply IH|].
        intros Ho. injection Ho as ->. destruct st as [r0 s0].
        apply nextReadableMemoryRegion_body_exit in Hbody
          as (-> & _ & [[Hmal _] | (_ & Ha & _)]); congruence. }
      destruct Hscan as [|(_ & _ & _ & Hcov)]; [contradiction | now right]. }
  destruct Hmade as [[Ha Hs] | Hcov]; [lia|].
  destruct (Hcov z Hz) as (line & Hin & Hc & Hr & Hzl).
  exists line. pose proof (considered_above _ _ Hc) as Habove.
  apply considered_entry in Hc as (_ & _ & Hv). auto 6.
Qed.

(** How [nextMemoryRegion]'s loop depends on the address. *)
Lemma nextMemoryRegion_scan_stable (address address' : Z)
  (lines : list string) :
  Forall (fun line => exists start end_,
            limitsOf line = Some (start, end_) /\ start < end_) lines ->
  address <= address' ->
  forall st,
    match scan (nextMemoryRegion_body address) st lines with
    | Next st' => scan (nextMemoryRegion_body address') st lines = Next st'
    | Exit (Returns region harderror softerrors) =>
        0 < Size region /\
        (address' < Address region + Size region ->
         scan (nextMemoryRegion_body address') st lines
         = Exit (Returns region harderror softerrors))
    | Exit Panics => True
    end.
Proof.
  intros Hentries Hle st.
  induction Hentries as [|line lines (start & end_ & E & Hlt) _ IH];
    cbn [scan]; [reflexivity|].
  rewrite !(nextMemoryRegion_body_entry _ _ _ _ _ E).
  destruct (limitsOf_range _ _ _ E) as [Hs He].
  destruct (isVsyscall line); [exact IH|].
  destruct (end_ <=? address) eqn:Hskip.
  - apply Z.leb_le in Hskip.
    assert (Hskip' : (end_ <=? address') = true) by (apply Z.leb_le; lia).
    rewrite Hskip'. exact IH.
  - destruct (accessOf (permsOf line)) as [access|]; [|exact I].
    cbn [Address Size]. unfold wrap. rewrite Z.mod_small by lia.
    split; [lia|]. intros Hin.
    assert (Hskip' : (end_ <=? address') = false) by (apply Z.leb_gt; lia).
    now rewrite Hskip'.
Qed.

(** X7.  On a listing whose records are non-empty intervals,
    [nextMemoryRegion] gives the same answer at every address from the
    one asked for up to the end of the region returned; once it has
    returned "no region available" it returns it at every greater
    address. *)
Theorem nextMemoryRegion_stable (fs : FileSystem) (p : Process)
  (address address' : Z) (mapsFile : File) (region : MemoryRegion)
  (harderror : option error) (softerrors : list error) :
  fs (MapsFilePathFromPid (Pid p)) = inl mapsFile ->
  Forall (fun line => exists start end_,
            limitsOf line = Some (start, end_) /\ start < end_)
         (file_lines mapsFile) ->
  address <= address' ->
  nextMemoryRegion fs p address = Returns region harderror softerrors ->
  region = NoRegionAvailable \/ address' < Address region + Size region ->
  nextMemoryRegion fs p address' = Returns region harderror softerrors.
Proof.
  intros Hopen Hentries Hle H Hin.
  rewrite (nextMemoryRegion_opened _ _ address _ Hopen) in H.
  rewrite (nextMemoryRegion_opened _ _ address' _ Hopen).
  pose proof (nextMemoryRegion_scan_stable address address'
                (file_lines mapsFile) Hentries Hle (zeroRegion, []))
    as Hscan.
  destruct (scan (nextMemoryRegion_body address) _ _)
    as [[region' softerrors']|o].
  - now rewrite Hscan.
  - subst o. destruct Hscan as [Hsize Hsame].
    rewrite Hsame; [reflexivity|].
    destruct Hin as [-> | Hin]; [cbn in Hsize; lia | exact Hin].
Qed.

End EnumeratorFacts.

Section ReaderFacts.

Context {C : Common}.

(** X8.  [copyMemory] returns a nil fatal error exactly when the memory
    file opens and the positioned read at the address reports no error
    and fills the buffer; it never returns a softerror, and the buffer
    keeps its length. *)
Theorem copyMemory_succeeds_iff (fs : FileSystem) (p : Process)
  (address : Z) (buffer : list Byte.byte) (harderror : option error)
  (softerrors : list error) (buffer' : list Byte.byte) :
  copyMemory fs p address buffer = (harderror, softerrors, buffer') ->
  (harderror = None <->
   exists mem data,
     fs (MemFilePathFromPid (Pid p)) = inl mem /\
     file_pread mem (List.length buffer) (int64 address) = (data, None) /\
     (List.length buffer <= List.length data)%nat) /\
  softerrors = [] /\
  List.length buffer' = List.length buffer.
Proof.
  unfold copyMemory, ReadAt.
  destruct (fs _) as [mem|e].
  - destruct (file_pread mem (List.length buffer) (int64 address))
      as [data err] eqn:Hpread.
    assert (Hgot : (List.length (firstn (List.length buffer) data)
                    <= List.length buffer)%nat)
      by (rewrite length_firstn; lia).
    assert (Hlen : List.length
                     (firstn (List.length buffer) data ++
                      skipn (List.length (firstn (List.length buffer) data))
                        buffer)%list
                   = List.length buffer)
      by (rewrite length_app, length_skipn; lia).
    destruct err as [e|].
    + intros H. injection H as <- <- <-.
      repeat split; try assumption; try discriminate.
      intros (mem' & data' & Hmem & Hread & _).
      injection Hmem as <-. congruence.
    + destruct (Z.of_nat _ =? Z.of_nat (List.length buffer)) eqn:Hn;
        cbn [negb]; intros H; injection H as <- <- <-.
      * apply Z.eqb_eq in Hn. rewrite length_firstn in Hn.
        repeat split; try assumption.
        intros _. exists mem, data. repeat split; [assumption | lia].
      * apply Z.eqb_neq in Hn. rewrite length_firstn in Hn.
        repeat split; try assumption; try discriminate.
        intros (mem' & data' & Hmem & Hread & Hfull).
        injection Hmem as <-. rewrite Hpread in Hread.
        injection Hread as <-. lia.
  - intros H. injection H as <- <- <-.
    repeat split; try discriminate.
    intros (mem & data & Hmem & _). discriminate.
Qed.

End ReaderFacts.

(** ** A walk with [nextMemoryRegion] *)

Section Walk.

Context {C : Common}.

Lemma walks_from (fs : FileSystem) (p : Process) (mapsFile : File)
  (todo : list string) :
  fs (MapsFilePathFromPid (Pid p)) = inl mapsFile ->
  Forall (fun line => (exists start end_,
                          limitsOf line = Some (start, end_) /\
                          start < end_) /\
                      (3 <= String.length (permsOf line))%nat) todo ->
  StronglySorted
    (fun x y => startOf x < startOf y /\
                (endOf x <= startOf y \/ endOf y <= startOf x)) todo ->
  forall (done : list string) (address : Z),
    file_lines mapsFile = (done ++ todo)%list ->
    Forall (fun l => exists s e, limitsOf l = Some (s, e) /\
                       (e <= address \/ isVsyscall l = true)) done ->
    Forall (fun line => address <= startOf line) todo ->
    walks fs p address
      (map regionOf (filter (fun line => negb (isVsyscall line)) todo)).
Proof.
  intros Hopen Hentries Hsorted.
  induction Hsorted as [|line todo Hsorted IH Hafter];
    intros done address Hlines Hdone Hahead.
  - cbn. rewrite (nextMemoryRegion_opened _ _ _ _ Hopen), Hlines, app_nil_r.
    now rewrite (nextMemoryRegion_scan_skip _ _ _ Hdone).
  - apply Forall_cons_iff in Hentries
      as [[(start & end_ & E & Hlt) Hperms] Hentries].
    apply Forall_cons_iff in Hahead as [Hline Hahead].
    destruct (limitsOf_start_end _ _ _ E) as (Hs & He & Hsize).
    destruct (limitsOf_range _ _ _ E) as [Hsr Her].
    assert (Hlines' : file_lines mapsFile = ((done ++ [line]) ++ todo)%list)
      by now rewrite <- app_assoc.
    cbn [filter]. destruct (isVsyscall line) eqn:Hv; cbn [negb map].
    + apply (IH Hentries (done ++ [line])%list address Hlines');
        [|exact Hahead].
      apply Forall_app. split; [exact Hdone|].
      constructor; [|constructor]. exists start, end_. auto.
    + cbn [walks]. split.
      * assert (Hacc : exists access,
                   accessOf (permsOf line) = Some access).
        { unfold accessOf.
          destruct (String.get 0 (permsOf line)) eqn:G0;
            [|exfalso; revert G0; apply get_in_range; lia].
          destruct (String.get 1 (permsOf line)) eqn:G1;
            [|exfalso; revert G1; apply get_in_range; lia].
          destruct (String.get 2 (permsOf line)) eqn:G2;
            [|exfalso; revert G2; apply get_in_range; lia].
          eauto. }
        destruct Hacc as [access Hacc].
        unfold regionOf. rewrite Hacc, Hs, Hsize.
        rewrite (nextMemoryRegion_opened _ _ _ _ Hopen), Hlines, scan_app.
        rewrite (nextMemoryRegion_scan_skip _ _ _ Hdone). cbn [scan].
        rewrite (nextMemoryRegion_body_entry _ _ _ _ _ E), Hv, Hacc.
        assert (Habove : (end_ <=? address) = false)
          by (apply Z.leb_gt; lia).
        now rewrite Habove.
      * change (Address (regionOf line)) with (startOf line).
        change (Size (regionOf line)) with (sizeOf line).
        rewrite Hs, Hsize. unfold wrap at 2.
        rewrite (Z.mod_small (end_ - start)) by lia.
        replace (start + (end_ - start)) with end_ by lia.
        unfold wrap. rewrite Z.mod_small by lia.
        apply (IH Hentries (done ++ [line])%list end_ Hlines').
        -- apply Forall_app. split.
           ++ eapply Forall_impl; [|exact Hdone]. cbv beta.
              intros l (s & e & El & Hskip). exists s, e.
              split; [exact El|]. destruct Hskip; [left; lia | now right].
           ++ constructor; [|constructor]. exists start, end_.
              split; [exact E | left; lia].
        -- apply Forall_forall. intros l Hl.
           pose proof (proj1 (Forall_forall _ _) Hafter l Hl) as [Hlt' Hdis].
           pose proof (proj1 (Forall_forall _ _) Hentries l Hl)
             as [(s & e & El & Hse) _].
           destruct (limitsOf_start_end _ _ _ El) as (Hsl & Hel & _).
           lia.
Qed.

(** X9.  A walk from address 0 over an ordered listing, each call of
    [nextMemoryRegion] made at the end of the region returned before,
    returns every record but the [vsyscall] page, once and in the order
    of the listing, with nil fatal errors, and then "no region
    available". *)
Theorem nextMemoryRegion_walk (fs : FileSystem) (p : Process)
  (mapsFile : File) :
  fs (MapsFilePathFromPid (Pid p)) = inl mapsFile ->
  orderedListing (file_lines mapsFile) ->
  Forall (fun line => (3 <= String.length (permsOf line))%nat)
         (file_lines mapsFile) ->
  walks fs p 0
    (map regionOf
       (filter (fun line => negb (isVsyscall line)) (file_lines mapsFile))).
Proof.
  intros Hopen [Hentries Hsorted] Hperms.
  apply (walks_from fs p mapsFile (file_lines mapsFile) Hopen) with
    (done := []).
  - apply Forall_forall. intros line Hin. split.
    + exact (proj1 (Forall_forall _ _) Hentries line Hin).
    + exact (proj1 (Forall_forall _ _) Hperms line Hin).
  - exact Hsorted.
  - reflexivity.
  - constructor.
  - apply Forall_forall. intros line Hin.
    destruct (proj1 (Forall_forall _ _) Hentries line Hin)
      as (start & end_ & E & _).
    destruct (limitsOf_range _ _ _ E) as [Hs _].
    destruct (limitsOf_start_end _ _ _ E) as (-> & _). lia.
Qed.

End Walk.

(** ** Package [process] *)

Section TrimFacts.

Import process.

Variable cutset : string.

Lemma trimLeft_head (s : string) :
  forall c rest, trimLeft cutset s = String c rest ->
                 inCutset cutset c = false.
Proof.
  induction s as [|a s IH]; cbn; intros c rest H.
  - discriminate.
  - destruct (inCutset cutset a) eqn:Ha; [eauto|].
    injection H as <- _. exact Ha.
Qed.

Lemma trimRight_head (s : string) :
  forall c rest, s = String c rest -> inCutset cutset c = false ->
                 exists rest', trimRight cutset s = String c rest'.
Proof.
  intros c rest -> Hc. cbn.
  destruct (trimRight cutset rest); [rewrite Hc|]; eauto.
Qed.

Lemma trimRight_last (s : string) :
  forall front c, trimRight cutset s = front ++ String c EmptyString ->
                  inCutset cutset c = false.
Proof.
  induction s as [|a s IH]; cbn; intros front c H.
  - destruct front; discriminate.
  - destruct (trimRight cutset s) as [|b kept] eqn:E.
    + destruct (inCutset cutset a) eqn:Ha.
      * destruct front; discriminate.
      * destruct front as [|f front]; cbn in H.
        -- injection H as <-. exact Ha.
        -- injection H as _ H. destruct front; discriminate.
    + destruct front as [|f front]; cbn in H; [discriminate|].
      injection H as _ H. eapply IH. exact H.
Qed.

(** What [strings.Trim] returns neither begins nor ends with a character
    of the cutset. *)
Lemma Trim_trimmed (s : string) :
  (forall c rest, Trim s cutset = String c rest ->
                  inCutset cutset c = false) /\
  (forall front c, Trim s cutset = front ++ String c EmptyString ->
                   inCutset cutset c = false).
Proof.
  unfold Trim. split.
  - intros c rest H.
    destruct (trimLeft cutset s) as [|a t] eqn:E; [discriminate|].
    pose proof (trimLeft_head s a t E) as Ha.
    destruct (trimRight_head (String a t) a t eq_refl Ha) as [rest' H'].
    rewrite H' in H. injection H as <- _. exact Ha.
  - apply trimRight_last.
Qed.

End TrimFacts.

Section ProcessFacts.

Import process.

Context {G : GoLibrary}.

Lemma nameLoop_found (p : Process) (name0 : string) (lines : list string)
  (err : option error) (name : string) (softerrors : list error) :
  nameLoop p name0 lines err = (name, None, softerrors) ->
  softerrors = [] /\
  exists front line back,
    lines = (front ++ line :: back)%list /\
    Forall (fun l => String.prefix namePrefix l = false) front /\
    String.prefix namePrefix line = true /\
    name = "[" ++ Trim (sliceFrom 5 line) blanks ++ "]".
Proof.
  induction lines as [|line lines IH]; cbn [nameLoop].
  - destruct err; discriminate.
  - destruct (String.prefix namePrefix line) eqn:Hp.
    + intros H. injection H as <- <-. split; [reflexivity|].
      exists [], line, lines. repeat split; auto.
    + intros H. destruct (IH H) as (Hs & front & l & back & -> & Hf & Hl & Hn).
      split; [exact Hs|].
      exists (line :: front), l, back. repeat split; auto.
Qed.

(** X10.  When [Name] returns a nil error, the name is the path the
    [exe] link of the process resolves to or, when the link does not
    resolve, the text that follows "Name:" on the first line of the
    status file with that prefix, without the spaces and tabs at its
    ends, in square brackets.  No softerror is returned. *)
Theorem Name_without_error (env : Proc) (p : Process) (name : string)
  (softerrors : list error) :
  Name env p = (name, None, softerrors) ->
  softerrors = [] /\
  (EvalSymlinks env ("/proc/" ++ fmt_d (Pid p) ++ "/exe") = inl name \/
   exists err statusFile front line back readError,
     EvalSymlinks env ("/proc/" ++ fmt_d (Pid p) ++ "/exe") = inr err /\
     Open env ("/proc/" ++ fmt_d (Pid p) ++ "/status") = inl statusFile /\
     ReadLines env statusFile = ((front ++ line :: back)%list, readError) /\
     Forall (fun l => String.prefix "Name:" l = false) front /\
     String.prefix "Name:" line = true /\
     name = "[" ++ Trim (sliceFrom 5 line) blanks ++ "]" /\
     (forall c rest, Trim (sliceFrom 5 line) blanks = String c rest ->
                     c <> " "%char /\ c <> "009"%char) /\
     (forall text c,
         Trim (sliceFrom 5 line) blanks = text ++ String c EmptyString ->
         c <> " "%char /\ c <> "009"%char)).
Proof.
  unfold Name, processExe.
  destruct (EvalSymlinks env _) as [path|err] eqn:Hexe.
  - intros H. injection H as <- <-. auto.
  - destruct (Open env _) as [statusFile|e] eqn:Hopen; [|discriminate].
    destruct (ReadLines env statusFile) as [lines readError] eqn:Hread.
    intros H. apply nameLoop_found in H
      as (Hs & front & line & back & -> & Hfront & Hline & Hname).
    split; [exact Hs|]. right.
    exists err, statusFile, front, line, back, readError.
    destruct (Trim_trimmed blanks (sliceFrom 5 line)) as [Hhead Hlast].
    assert (Hblank : forall c, inCutset blanks c = false ->
                               c <> " "%char /\ c <> "009"%char).
    { intros c Hc. unfold inCutset, blanks in Hc. cbn in Hc.
      apply orb_false_iff in Hc as [H1 Hc].
      apply orb_false_iff in Hc as [H2 _].
      apply Ascii.eqb_neq in H1, H2. auto. }
    do 3 (split; [first [reflexivity | assumption]|]).
    split; [exact Hfront|]. split; [exact Hline|]. split; [exact Hname|].
    split.
    + intros c rest Hc. apply Hblank. eapply Hhead. exact Hc.
    + intros text c Hc. apply Hblank. eapply Hlast. exact Hc.
Qed.

Lemma getFieldNameForKey_fresh (key : string) :
  fst (getFieldNameForKey emptyMap key) =
  if String.eqb key "Pid" then "Id"
  else if String.eqb key "Name" then "Command"
  else if String.eqb key "Uid" then "UserId"
  else if String.eqb key "Gid" then "GroupId"
  else if String.eqb key "PPid" then "ParentProcessId"
  else EmptyString.
Proof.
  unfold getFieldNameForKey, emptyMap, FieldByNameFunc, mapStore,
    linuxProcessInfoFields.
  cbn [fieldScan fieldName].
  repeat match goal with
         | |- context [FieldByName ?t ?n] =>
             let v := eval vm_compute in (FieldByName t n) in
             change (FieldByName t n) with v
         end.
  cbn [statusFileKey fieldName].
  rewrite (String.eqb_sym key "Pid"), (String.eqb_sym key "Name"),
    (String.eqb_sym key "Uid"), (String.eqb_sym key "Gid"),
    (String.eqb_sym key "PPid").
  destruct (String.eqb_spec "Pid" key) as [<-|_]; [reflexivity|].
  destruct (String.eqb_spec "Name" key) as [<-|_]; [reflexivity|].
  destruct (String.eqb_spec "Uid" key) as [<-|_]; [reflexivity|].
  destruct (String.eqb_spec EmptyString key) as [<-|_]; [reflexivity|].
  destruct (String.eqb_spec "Gid" key) as [<-|_]; [reflexivity|].
  destruct (String.eqb_spec "PPid" key) as [<-|_]; [reflexivity|].
  reflexivity.
Qed.

(** X11.  With an empty cache, [getFieldNameForKey] maps the keys "Pid",
    "Name", "Uid", "Gid" and "PPid" to the fields "Id", "Command",
    "UserId", "GroupId" and "ParentProcessId", and every other key to the
    empty name: also the empty key, which three fields carry. *)
Theorem getFieldNameForKey_table (key : string) :
  getFieldNameForKey emptyMap EmptyString = (EmptyString, emptyMap) /\
  fst (getFieldNameForKey emptyMap key) =
  if String.eqb key "Pid" then "Id"
  else if String.eqb key "Name" then "Command"
  else if String.eqb key "Uid" then "UserId"
  else if String.eqb key "Gid" then "GroupId"
  else if String.eqb key "PPid" then "ParentProcessId"
  else EmptyString.
Proof.
  split; [reflexivity | apply getFieldNameForKey_fresh].
Qed.

Lemma getFieldNameForKey_cached (keyToFieldName : StringMap)
  (key : string) :
  cacheSound keyToFieldName ->
  fst (getFieldNameForKey keyToFieldName key)
  = fst (getFieldNameForKey emptyMap key) /\
  cacheSound (snd (getFieldNameForKey keyToFieldName key)).
Proof.
  intros Hsound. unfold getFieldNameForKey at 1 3.
  destruct (keyToFieldName key) as [name|] eqn:Hkey.
  - cbn [fst snd]. split; [symmetry; now apply Hsound | exact Hsound].
  - unfold getFieldNameForKey, emptyMap.
    destruct (FieldByNameFunc _ _) as [f|] eqn:E; cbn [fst snd].
    + unfold mapStore. cbv beta. rewrite !String.eqb_refl.
      split; [reflexivity|].
      intros k name. cbv beta.
      destruct (String.eqb_spec k key) as [->|_].
      * intros H. injection H as <-.
        unfold getFieldNameForKey, emptyMap. rewrite E.
        unfold mapStore. cbv beta. now rewrite String.eqb_refl.
      * apply Hsound.
    + split; [reflexivity | exact Hsound].
Qed.

(** X12.  The cache of [getFieldNameForKey] does not change its answers:
    with a cache that holds only what the function stored, the name
    returned is the one an empty cache gives, and the cache the call
    leaves again holds only what the function stores. *)
Theorem getFieldNameForKey_memoized (keyToFieldName : StringMap)
  (key : string) :
  cacheSound keyToFieldName ->
  fst (getFieldNameForKey keyToFieldName key)
  = fst (getFieldNameForKey emptyMap key) /\
  cacheSound (snd (getFieldNameForKey keyToFieldName key)).
Proof. apply getFieldNameForKey_cached. Qed.

Lemma cacheSound_empty : cacheSound emptyMap.
Proof. intros key name H. discriminate. Qed.

Lemma statusLine_sound (keyToFieldName : StringMap)
  (lpi : linuxProcessInfo) (line : string) :
  cacheSound keyToFieldName ->
  match statusLine (keyToFieldName, lpi) line with
  | inl (keyToFieldName', lpi') =>
      cacheSound keyToFieldName' /\ sameNames lpi' lpi
  | inr (Parsed (Some _) keyToFieldName' (Some lpi')) =>
      cacheSound keyToFieldName' /\ sameNames lpi' lpi
  | inr _ => False
  end.
Proof.
  intros Hsound. unfold statusLine. cbv zeta.
  destruct (negb _); [split; [exact Hsound | repeat split]|].
  set (key := TrimSpace _).
  set (value := match Fields _ with [] => _ | v :: _ => v end).
  destruct (getFieldNameForKey_cached keyToFieldName key Hsound)
    as [Hname Hsound'].
  destruct (getFieldNameForKey keyToFieldName key) as [name cache'].
  cbn [fst snd] in Hname, Hsound'.
  rewrite getFieldNameForKey_fresh in Hname.
  destruct lpi as [id command userId userName groupId groupName parent exe].
  repeat match type of Hname with
         | _ = (if ?b then _ else _) => destruct b
         end;
    subst name; cbn;
    try (destruct (Atoi value); cbn);
    (split; [exact Hsound' | repeat split]).
Qed.

Lemma statusLines_sound (lines : list string) :
  forall keyToFieldName lpi,
    cacheSound keyToFieldName ->
    match statusLines (keyToFieldName, lpi) lines with
    | Parsed _ keyToFieldName' (Some lpi') =>
        cacheSound keyToFieldName' /\ sameNames lpi' lpi
    | _ => False
    end.
Proof.
  induction lines as [|line lines IH]; intros keyToFieldName lpi Hsound;
    cbn [statusLines].
  - cbn. split; [exact Hsound | repeat split].
  - pose proof (statusLine_sound keyToFieldName lpi line Hsound) as Hline.
    destruct (statusLine (keyToFieldName, lpi) line)
      as [[cache' lpi']|[[err|] cache' [lpi'|]|]];
      try contradiction; try exact Hline.
    destruct Hline as [Hsound' (Hu & Hg & He)].
    specialize (IH cache' lpi' Hsound').
    destruct (statusLines (cache', lpi') lines) as [err cache2 [lpi2|]|];
      try contradiction.
    destruct IH as [Hsound2 (Hu2 & Hg2 & He2)].
    split; [exact Hsound2|]. repeat split; congruence.
Qed.

(** X13.  [parseStatusToStruct] never panics on a struct that is not nil
    and, whatever the data, never writes the fields [UserName],
    [GroupName] and [Executable]; the cache it leaves holds only what
    [getFieldNameForKey] stores. *)
Theorem parseStatusToStruct_untouched (keyToFieldName : StringMap)
  (data : string) (lpi : linuxProcessInfo) :
  cacheSound keyToFieldName ->
  exists err keyToFieldName' lpi',
    parseStatusToStruct keyToFieldName data (Some lpi)
    = Parsed err keyToFieldName' (Some lpi') /\
    cacheSound keyToFieldName' /\
    UserName lpi' = UserName lpi /\
    GroupName lpi' = GroupName lpi /\
    Executable lpi' = Executable lpi.
Proof.
  intros Hsound. unfold parseStatusToStruct.
  pose proof (statusLines_sound (readStrings EmptyString data)
                keyToFieldName lpi Hsound) as H.
  destruct (statusLines _ _) as [err cache' [lpi'|]|]; try contradiction.
  destruct H as [Hsound' (Hu & Hg & He)].
  exists err, cache', lpi'. auto.
Qed.

Lemma readStrings_app (front back : string) :
  forall line,
    readStrings line (front ++ back)
    = (readStrings line front ++ readStrings (unread line front) back)%list.
Proof.
  induction front as [|c front IH]; intros line; cbn.
  - reflexivity.
  - destruct (Ascii.eqb c newline); cbn; now rewrite IH.
Qed.

Lemma unread_newline (front : string) :
  forall line,
    unread line (front ++ String newline EmptyString) = EmptyString.
Proof.
  induction front as [|c front IH]; intros line; cbn.
  - reflexivity.
  - destruct (Ascii.eqb c newline); apply IH.
Qed.

Lemma unread_wholeLines (data : string) :
  wholeLines data -> unread EmptyString data = EmptyString.
Proof.
  intros [-> | [front ->]]; [reflexivity | apply unread_newline].
Qed.

Lemma readStrings_no_newline (tail : string) :
  ~ In newline (list_ascii_of_string tail) ->
  forall line, readStrings line tail = [].
Proof.
  induction tail as [|c tail IH]; intros Hno line; cbn.
  - reflexivity.
  - destruct (Ascii.eqb_spec c newline) as [->|_].
    + exfalso. apply Hno. now left.
    + apply IH. intros Hin. apply Hno. now right.
Qed.

Lemma statusLine_exit (st : StringMap * linuxProcessInfo) (line : string)
  (result : parsed) :
  statusLine st line = inr result ->
  (exists err keyToFieldName lpi,
      result = Parsed (Some err) keyToFieldName lpi) \/
  result = ParsePanics.
Proof.
  unfold statusLine. destruct st as [keyToFieldName lpi]. cbv zeta.
  destruct (negb _); [discriminate|].
  destruct (getFieldNameForKey _ _) as [name cache'].
  destruct (FieldByName _ _) as [vfield|]; [|discriminate].
  destruct (stringToReflectValue _ _) as [val|err].
  - destruct (Set_ _ _ _); [discriminate|].
    intros H. injection H as <-. now right.
  - intros H. injection H as <-. left. eauto.
Qed.

Lemma statusLines_app (front back : list string) :
  forall st,
    statusLines st (front ++ back)%list =
    match statusLines st front with
    | Parsed None keyToFieldName (Some lpi) =>
        statusLines (keyToFieldName, lpi) back
    | result => result
    end.
Proof.
  induction front as [|line front IH]; intros st; cbn [statusLines List.app].
  - now destruct st.
  - destruct (statusLine st line) as [st'|result] eqn:E; [apply IH|].
    apply statusLine_exit in E as [(err & m & lpi & ->) | ->]; reflexivity.
Qed.

(** X14.  [parseStatusToStruct] reads its data line by line: on data
    that ends with a newline followed by more data it does what it does
    on the first part and then, when that returned no error, on the
    rest, with the cache and the struct the first part left; an error
    ends the call with the fields written so far.  What follows the last
    newline of the data is not read. *)
Theorem parseStatusToStruct_by_lines (keyToFieldName : StringMap)
  (front back : string) (lpi : linuxProcessInfo) :
  wholeLines front ->
  parseStatusToStruct keyToFieldName (front ++ back) (Some lpi) =
  match parseStatusToStruct keyToFieldName front (Some lpi) with
  | Parsed None keyToFieldName' (Some lpi') =>
      parseStatusToStruct keyToFieldName' back (Some lpi')
  | result => result
  end /\
  (~ In newline (list_ascii_of_string back) ->
   parseStatusToStruct keyToFieldName (front ++ back) (Some lpi)
   = parseStatusToStruct keyToFieldName front (Some lpi)).
Proof.
  intros Hwhole. unfold parseStatusToStruct.
  rewrite readStrings_app, (unread_wholeLines _ Hwhole), statusLines_app.
  split; [reflexivity|].
  intros Hno. rewrite (readStrings_no_newline _ Hno). cbn [statusLines].
  destruct (statusLines _ _) as [[err|] m [l|]|]; reflexivity.
Qed.

Lemma fmt_d_head (n : Z) :
  exists c rest, fmt_d n = String c rest /\ c <> "&"%char.
Proof.
  unfold fmt_d. destruct (Z.to_int n) as [d|d]; cbn.
  - destruct d; cbn; do 2 eexists; (split; [reflexivity | discriminate]).
  - do 2 eexists. split; [reflexivity | discriminate].
Qed.

Lemma status_path_differs (p : Process) :
  "/proc/" ++ sprintf_d_pointer p ++ "/status"
  <> "/proc/" ++ fmt_d (Pid p) ++ "/status".
Proof.
  unfold sprintf_d_pointer.
  destruct (fmt_d_head (Pid p)) as (c & rest & -> & Hc).
  cbn. intros H. injection H as H. congruence.
Qed.

(** X15.  [Info] formats the process itself, not its pid, into the path
    of the status file: the file it opens is [/proc/&{<pid>}/status].
    What [/proc/<pid>/status] holds has no effect on what [Info]
    returns, and when the file it opens does not exist [Info] returns
    the error of the open. *)
Theorem Info_never_reads_the_status_file (env env' : Proc)
  (keyToFieldName : StringMap) (p : Process) :
  (forall path,
      path <> "/proc/" ++ fmt_d (Pid p) ++ "/status" ->
      Open env' path = Open env path) ->
  (forall file, ReadAll env' file = ReadAll env file) ->
  (forall path, EvalSymlinks env' path = EvalSymlinks env path) ->
  Info env' keyToFieldName p = Info env keyToFieldName p /\
  (forall err,
      Open env ("/proc/" ++ ("&{" ++ fmt_d (Pid p) ++ "}") ++ "/status")
      = inr err ->
      Info env keyToFieldName p =
      InfoReturns None
        (Some ("Unable to open proc " ++ fmt_d (Pid p)
               ++ "'s status file at "
               ++ ("/proc/" ++ ("&{" ++ fmt_d (Pid p) ++ "}") ++ "/status")
               ++ " (" ++ err ++ ")"))
        keyToFieldName []).
Proof.
  intros Hopen Hread Hlink. split.
  - unfold Info, processExe.
    rewrite (Hopen _ (status_path_differs p)).
    destruct (Open env _) as [statusFile|err]; [|reflexivity].
    rewrite Hread. destruct (ReadAll env statusFile); [|reflexivity].
    destruct (parseStatusToStruct _ _ _) as [[e|] m [l|]|];
      try reflexivity.
    now rewrite Hlink.
  - intros err Herr. unfold Info, sprintf_d_pointer.
    now rewrite Herr.
Qed.

End ProcessFacts.

(** ** The further properties on sample listings *)

(** A record given with its limits. *)
Ltac with_limits :=
  match goal with
  | |- exists _ _, limitsOf ?l = _ /\ _ =>
      let v := eval vm_compute in (limitsOf l) in
      match v with
      | Some (?a, ?b) => exists a, b; split; [reflexivity|]
      end
  end.

(** The call on a listing with a record that is not one. *)
Lemma nextMemoryRegion_no_softerrors_witness :
  @nil error = [] /\
  (Some "Unrecognised maps line: garbage" <> None ->
   zeroRegion = zeroRegion).
Proof.
  apply (nextMemoryRegion_no_softerrors
           (procOf 4242 [text; garbage; heap] None) self 4530176).
  reflexivity.
Defined.

(** Every record ends at or below the stack's end or is the [vsyscall]
    page. *)
Lemma enumerators_past_the_end_witness :
  nextMemoryRegion (procOf 4242 [text; heap; stack; vsyscall] (Some EIO))
    self 140725613305856
  = Returns NoRegionAvailable None [] /\
  nextReadableMemoryRegion
    (procOf 4242 [text; heap; stack; vsyscall] (Some EIO))
    self 140725613305856
  = Returns NoRegionAvailable (Some EIO) [].
Proof.
  apply (enumerators_past_the_end
           (procOf 4242 [text; heap; stack; vsyscall] (Some EIO)) self
           140725613305856 (fileOf [text; heap; stack; vsyscall] (Some EIO))).
  - reflexivity.
  - each_record; with_limits; vm_compute;
      first [left; discriminate | right; reflexivity].
Defined.

(** A call inside the first mapping returns it: it begins below the
    address. *)
Lemma returned_region_is_valid_witness :
  0 <= 4194304 /\ 0 < 335872 /\ 4200000 < 4194304 + 335872 < modulus.
Proof.
  apply (returned_region_is_valid
           (procOf 4242 [text; rodata; guard; heap] None) self 4200000
           (fileOf [text; rodata; guard; heap] None)
           (mkRegion 4194304 335872 (Readable + Executable)
              "/usr/bin/dbus-daemon")).
  - reflexivity.
  - each_record; with_limits; reflexivity.
  - left. exists None, []. reflexivity.
  - discriminate.
Defined.

(** The last address of the region merged from the first two records. *)
Lemma readable_region_is_readable_witness :
  exists line,
    In line [text; rodata; guard; heap] /\ readable line = true /\
    isVsyscall line = false /\ 0 < endOf line /\
    startOf line <= 4534271 < endOf line.
Proof.
  apply (readable_region_is_readable
           (procOf 4242 [text; rodata; guard; heap] None) self 0
           (fileOf [text; rodata; guard; heap] None)
           (mkRegion 4194304 339968 NoAccess EmptyString) None []).
  - reflexivity.
  - each_record; with_limits; reflexivity.
  - reflexivity.
  - cbn [Address Size]. lia.
Defined.

(** Of two unreadable records, the one before the region is reported. *)
Lemma nextReadableMemoryRegion_softerrors_witness :
  exists rest,
    map unreadableError
      (filter (fun line => considered 0 line && unreadable line)
         [guard; text; rodata; guard; heap])
    = List.app ["Unreadable memory 00453000-00454000"] rest.
Proof.
  apply (nextReadableMemoryRegion_softerrors
           (procOf 4242 [guard; text; rodata; guard; heap] None) self 0
           (fileOf [guard; text; rodata; guard; heap] None)
           (mkRegion 4194304 339968 NoAccess EmptyString) None).
  - reflexivity.
  - reflexivity.
Defined.

(** Permission fields of four characters. *)
Lemma enumerators_do_not_panic_witness :
  nextMemoryRegion (procOf 4242 [text; guard; heap] None) self 0 <> Panics /\
  nextReadableMemoryRegion (procOf 4242 [text; guard; heap] None) self 0
  <> Panics.
Proof.
  destruct (enumerators_do_not_panic
              (procOf 4242 [text; guard; heap] None) self 0)
    as [Hregion Hreadable].
  split; [apply Hregion | apply Hreadable];
    intros mapsFile Hopen; injection Hopen as <-;
    each_record; vm_compute; lia.
Defined.

(** Two addresses inside the first mapping. *)
Lemma nextMemoryRegion_stable_witness :
  nextMemoryRegion (procOf 4242 [text; rodata; guard; heap] None) self
    4400000
  = Returns (mkRegion 4194304 335872 (Readable + Executable)
               "/usr/bin/dbus-daemon") None [].
Proof.
  apply (nextMemoryRegion_stable
           (procOf 4242 [text; rodata; guard; heap] None) self
           4200000 4400000 (fileOf [text; rodata; guard; heap] None)).
  - reflexivity.
  - each_record; with_limits; reflexivity.
  - lia.
  - reflexivity.
  - right. cbn [Address Size]. lia.
Defined.

(** A read of two bytes that finds one before the mapping ends. *)
Lemma copyMemory_succeeds_iff_witness :
  (Some ("Error while reading 2 bytes starting at 1003: "
         ++ "read /proc/4242/mem: input/output error") = None <->
   exists mem data,
     memoryOf 4242 4096 [Byte.x01; Byte.x02; Byte.x03; Byte.x04]
       (MemFilePathFromPid (Pid self)) = inl mem /\
     file_pread mem 2 (int64 4099) = (data, None) /\
     (2 <= List.length data)%nat) /\
  @nil error = [] /\
  List.length [Byte.x04; Byte.x00] = 2%nat.
Proof.
  apply (copyMemory_succeeds_iff
           (memoryOf 4242 4096 [Byte.x01; Byte.x02; Byte.x03; Byte.x04])
           self 4099 [Byte.x00; Byte.x00]).
  reflexivity.
Defined.

(** The walk over five mappings and the [vsyscall] page. *)
Lemma nextMemoryRegion_walk_witness :
  walks (procOf 4242 [text; rodata; guard; heap; stack; vsyscall] None)
    self 0
    [mkRegion 4194304 335872 (Readable + Executable) "/usr/bin/dbus-daemon";
     mkRegion 4530176 4096 Readable "/usr/bin/dbus-daemon";
     mkRegion 4534272 4096 NoAccess EmptyString;
     mkRegion 14692352 135168 (Readable + Writable) "[heap]";
     mkRegion 140725613170688 135168 (Readable + Writable) "[stack]"].
Proof.
  change (walks
            (procOf 4242 [text; rodata; guard; heap; stack; vsyscall] None)
            self 0
            (map regionOf
               (filter (fun line => negb (isVsyscall line))
                  (file_lines
                     (fileOf [text; rodata; guard; heap; stack; vsyscall]
                        None))))).
  apply nextMemoryRegion_walk.
  - reflexivity.
  - split.
    + each_record; with_limits; reflexivity.
    + each_record; vm_compute; (split; [reflexivity | left; discriminate]).
  - each_record; vm_compute; lia.
Defined.

Section ProcessSamples.

Import process ProcSample.

(** The [exe] link does not resolve and the status file names the
    command. *)
Lemma Name_without_error_witness :
  @nil error = [] /\
  (EvalSymlinks (envOf "/proc/4242/status" false)
     ("/proc/" ++ fmt_d (Pid self) ++ "/exe") = inl "[cat]" \/
   exists err statusFile front line back readError,
     EvalSymlinks (envOf "/proc/4242/status" false)
       ("/proc/" ++ fmt_d (Pid self) ++ "/exe") = inr err /\
     Open (envOf "/proc/4242/status" false)
       ("/proc/" ++ fmt_d (Pid self) ++ "/status") = inl statusFile /\
     ReadLines (envOf "/proc/4242/status" false) statusFile
     = ((front ++ line :: back)%list, readError) /\
     Forall (fun l => String.prefix "Name:" l = false) front /\
     String.prefix "Name:" line = true /\
     "[cat]" = "[" ++ Trim (sliceFrom 5 line) blanks ++ "]" /\
     (forall c rest, Trim (sliceFrom 5 line) blanks = String c rest ->
                     c <> " "%char /\ c <> "009"%char) /\
     (forall text c,
         Trim (sliceFrom 5 line) blanks = text ++ String c EmptyString ->
         c <> " "%char /\ c <> "009"%char)).
Proof.
  apply (Name_without_error (envOf "/proc/4242/status" false) self).
  reflexivity.
Defined.

(** The cache that the keys [Pid] and [Name] leave, asked for a key it
    holds and for a key it does not hold. *)
Lemma getFieldNameForKey_memoized_witness :
  cacheOfPidAndName "Pid" = Some "Id" /\
  cacheOfPidAndName "Name" = Some "Command" /\
  cacheOfPidAndName "Gid" = None /\
  cacheSound cacheOfPidAndName /\
  (fst (getFieldNameForKey cacheOfPidAndName "Pid")
   = fst (getFieldNameForKey emptyMap "Pid") /\
   cacheSound (snd (getFieldNameForKey cacheOfPidAndName "Pid"))) /\
  (fst (getFieldNameForKey cacheOfPidAndName "Gid")
   = fst (getFieldNameForKey emptyMap "Gid") /\
   cacheSound (snd (getFieldNameForKey cacheOfPidAndName "Gid"))).
Proof.
  assert (Hsound : cacheSound cacheOfPidAndName).
  { intros key name. unfold cacheOfPidAndName, mapStore, emptyMap.
    destruct (String.eqb key "Name") eqn:HName.
    - apply String.eqb_eq in HName. subst key.
      intros H. injection H as <-. reflexivity.
    - destruct (String.eqb key "Pid") eqn:HPid.
      + apply String.eqb_eq in HPid. subst key.
        intros H. injection H as <-. reflexivity.
      + discriminate. }
  split; [reflexivity|]. split; [reflexivity|]. split; [reflexivity|].
  split; [exact Hsound|].
  split.
  - apply (getFieldNameForKey_memoized cacheOfPidAndName "Pid").
    exact Hsound.
  - apply (getFieldNameForKey_memoized cacheOfPidAndName "Gid").
    exact Hsound.
Defined.

(** The status data of the sample process. *)
Lemma parseStatusToStruct_untouched_witness :
  exists err keyToFieldName' lpi',
    parseStatusToStruct emptyMap statusData
      (Some (mkInfo 0 EmptyString 0 "root" 0 "wheel" 0 "/bin/true"))
    = Parsed err keyToFieldName' (Some lpi') /\
    cacheSound keyToFieldName' /\
    UserName lpi' = "root" /\ GroupName lpi' = "wheel" /\
    Executable lpi' = "/bin/true".
Proof.
  apply (parseStatusToStruct_untouched emptyMap statusData
           (mkInfo 0 EmptyString 0 "root" 0 "wheel" 0 "/bin/true")).
  intros key name H. discriminate.
Defined.

(** A line for the name and a line for the pid that does not end. *)
Lemma parseStatusToStruct_by_lines_witness :
  parseStatusToStruct emptyMap
    (("Name:" ++ tab ++ "cat" ++ nl) ++ ("Pid:" ++ tab ++ "4242"))
    (Some zeroInfo)
  = match parseStatusToStruct emptyMap ("Name:" ++ tab ++ "cat" ++ nl)
            (Some zeroInfo) with
    | Parsed None keyToFieldName' (Some lpi') =>
        parseStatusToStruct keyToFieldName' ("Pid:" ++ tab ++ "4242")
          (Some lpi')
    | result => result
    end /\
  (~ In newline (list_ascii_of_string ("Pid:" ++ tab ++ "4242")) ->
   parseStatusToStruct emptyMap
     (("Name:" ++ tab ++ "cat" ++ nl) ++ ("Pid:" ++ tab ++ "4242"))
     (Some zeroInfo)
   = parseStatusToStruct emptyMap ("Name:" ++ tab ++ "cat" ++ nl)
       (Some zeroInfo)).
Proof.
  apply (parseStatusToStruct_by_lines emptyMap
           ("Name:" ++ tab ++ "cat" ++ nl) ("Pid:" ++ tab ++ "4242")
           zeroInfo).
  right. exists ("Name:" ++ tab ++ "cat"). reflexivity.
Defined.

(** A system with and without the status file of the process. *)
Lemma Info_never_reads_the_status_file_witness :
  Info (without "/proc/4242/status" (envOf "/proc/4242/status" true))
    emptyMap self
  = Info (envOf "/proc/4242/status" true) emptyMap self.
Proof.
  destruct (Info_never_reads_the_status_file
              (envOf "/proc/4242/status" true)
              (without "/proc/4242/status" (envOf "/proc/4242/status" true))
              emptyMap self) as [Hsame _].
  - intros path Hpath. cbn [Open without].
    destruct (String.eqb_spec path "/proc/4242/status") as [->|_];
      [|reflexivity].
    exfalso. apply Hpath. reflexivity.
  - reflexivity.
  - reflexivity.
  - exact Hsame.
Defined.

End ProcessSamples.
